(** * ai-repo-feedback: the Prompt Query Tool and the Mail Sender Tool

    A shallow embedding of [src/query-ai.py] and [src/send-mail.py].

    Both scripts are straight-line Python: they parse arguments, look up the
    process environment, call a client library once and report the outcome.
    The embedding keeps that shape.

    - A Python [str] is a list of Unicode code points, [bytes] a list of
      [byte].
    - Exceptions are a sum type threaded by a small error monad; the calls a
      script makes on the outside world (SMTP, the completion API, stdout) are
      recorded, in order, in a trace.
    - The outside world (environment variables, files, the SMTP server, the
      API endpoint) is a record of oracles: a theorem that quantifies over the
      world holds whatever the server answers.
    - The parts of the Python standard library whose result the claims depend
      on ([str.strip], [str.join], [zip], [email.utils.formataddr],
      [email.header.Header], [base64.encodebytes], [email.encoders]) are
      written out after CPython's sources. *)

From Stdlib Require Import ZArith NArith Lia.
From Stdlib.Strings Require Import Ascii String Byte.
From stdpp Require Import base option list gmap strings.

Set Warnings "-register-all".
Open Scope N_scope.

(** ** Python values *)

(** A [str] is a sequence of code points; [lit] reads an ASCII literal. *)
Abbreviation str := (list N) (only parsing).
Abbreviation bytes := (list Byte.byte) (only parsing).

Definition lit (s : string) : str :=
  N_of_ascii <$> list_ascii_of_string s.

Arguments lit : simpl never.

(** The double quote, which a literal cannot hold. *)
Definition dquote : str := [34].

(** [sep.join(items)] *)
Fixpoint join (sep : str) (items : list str) : str :=
  match items with
  | [] => []
  | [x] => x
  | x :: rest => x ++ sep ++ join sep rest
  end.

(** The first value stored under a key in a list of items. *)
Fixpoint assoc {V} (key : str) (items : list (str * V)) : option V :=
  match items with
  | [] => None
  | (k, v) :: rest => if decide (k = key) then Some v else assoc key rest
  end.

(** [str.isspace] on one code point: CPython's [_PyUnicode_IsWhitespace]. *)
Definition isspace (c : N) : bool :=
  ((9 <=? c) && (c <=? 13)) || ((28 <=? c) && (c <=? 32))
  || (c =? 133) || (c =? 160) || (c =? 5760)
  || ((8192 <=? c) && (c <=? 8202))
  || (c =? 8232) || (c =? 8233) || (c =? 8239) || (c =? 8287) || (c =? 12288).

(** [str.lstrip()], [str.rstrip()] and [str.strip()] without argument. *)
Fixpoint lstrip (s : str) : str :=
  match s with
  | c :: s' => if isspace c then lstrip s' else s
  | [] => []
  end.

Definition rstrip (s : str) : str := reverse (lstrip (reverse s)).

Definition strip (s : str) : str := rstrip (lstrip s).

(** [s.encode('ascii')] succeeds exactly on code points below 128. *)
Definition is_ascii (s : str) : bool := forallb (λ c, c <? 128) s.

(** Lone surrogates are the code points [s.encode('utf-8')] refuses. *)
Definition is_surrogate (c : N) : bool := (55296 <=? c) && (c <=? 57343).

(** ** Exceptions and the effect monad *)

Inductive exn :=
| KeyError (key : str)
| UnicodeEncodeError
| IndexError
| AttributeError
| OSError (detail : str)
| SMTPException (detail : str)
| OpenAIError (detail : str)
| KeyboardInterrupt
| SystemExit (message : str)      (* [sys.exit(message)]: message on stderr, status 1 *)
| UsageError (message : str).     (* [parser.error(message)]: usage on stderr, status 2 *)

(** [except Exception] catches everything but the [BaseException]-only classes. *)
Definition is_Exception (e : exn) : bool :=
  match e with
  | KeyboardInterrupt | SystemExit _ | UsageError _ => false
  | _ => true
  end.

(** A fallible pure computation. *)
Abbreviation result := (sum exn) (only parsing).

#[global] Instance result_ret : MRet (sum exn) := λ A a, inr a.
#[global] Instance result_bind : MBind (sum exn) := λ A B f m,
  match m with
  | inl e => inl e
  | inr a => f a
  end.

(** [[f(x) for x in xs]] where [f] may raise: the first exception wins. *)
Fixpoint comprehension {A B} (f : A → result B) (xs : list A) : result (list B) :=
  match xs with
  | [] => inr []
  | x :: rest =>
      y ← f x;
      ys ← comprehension f rest;
      mret (y :: ys)
  end.

(** A computation with effects: it extends the trace of events of type [E]
    and either returns or raises. *)
Definition M (E A : Type) : Type := list E → (result A) * list E.

#[global] Instance M_ret {E} : MRet (M E) := λ A a tr, (inr a, tr).
#[global] Instance M_bind {E} : MBind (M E) := λ A B f m tr,
  match m tr with
  | (inl e, tr') => (inl e, tr')
  | (inr a, tr') => f a tr'
  end.

Definition raise {E A} (e : exn) : M E A := λ tr, (inl e, tr).

Definition emit {E} (ev : E) : M E unit := λ tr, (inr tt, tr ++ [ev]).

Definition lift {E A} (r : result A) : M E A := λ tr, (r, tr).

(** A call on the outside world that returns nothing: [None] is success. *)
Definition call {E} (outcome : option exn) : M E unit :=
  match outcome with
  | Some e => raise e
  | None => mret tt
  end.

(** [try: body  except ...: handler]. [handler e] is [None] when no clause
    matches [e]. *)
Definition try_except {E A} (body : M E A)
    (handler : exn → option (M E A)) : M E A := λ tr,
  match body tr with
  | (inl e, tr') =>
      match handler e with
      | Some h => h tr'
      | None => (inl e, tr')
      end
  | ok => ok
  end.

(** [try: body  finally: cleanup]. An exception of the cleanup replaces the
    outcome of the body. *)
Definition try_finally {E A} (body : M E A) (cleanup : M E unit) : M E A := λ tr,
  match body tr with
  | (r, tr') =>
      match cleanup tr' with
      | (inl e, tr'') => (inl e, tr'')
      | (inr _, tr'') => (r, tr'')
      end
  end.

(** [sys.exit(message)] *)
Definition sys_exit {E A} (message : str) : M E A := raise (SystemExit message).

(** Running a program from the empty trace, and the exit status of the
    process. *)
Definition run {E A} (m : M E A) : result A * list E := m [].

Definition exit_status {A} (r : result A) : Z :=
  match r with
  | inr _ => 0
  | inl (UsageError _) => 2
  | inl _ => 1
  end%Z.

(** ** Library functions the scripts call *)

Definition byte_of_N (n : N) : Byte.byte := default Byte.x00 (Byte.of_N n).

(** [s.encode('utf-8')] *)
Definition utf8_char (c : N) : result bytes :=
  if c <? 128 then inr [byte_of_N c]
  else if c <? 2048 then
    inr [byte_of_N (192 + c / 64); byte_of_N (128 + c mod 64)]
  else if c <? 65536 then
    if is_surrogate c then inl UnicodeEncodeError
    else inr [byte_of_N (224 + c / 4096); byte_of_N (128 + (c / 64) mod 64);
              byte_of_N (128 + c mod 64)]
  else
    inr [byte_of_N (240 + c / 262144); byte_of_N (128 + (c / 4096) mod 64);
         byte_of_N (128 + (c / 64) mod 64); byte_of_N (128 + c mod 64)].

Definition encode_utf8 (s : str) : result bytes :=
  chunks ← comprehension utf8_char s;
  mret (concat chunks).

Module Base64.

Definition alphabet : str :=
  lit "ABCDEFGHIJKLMNOPQRSTUVWXYZabcdefghijklmnopqrstuvwxyz0123456789+/".

Definition pad : N := 61.

(** The character of a six-bit value, and back. *)
Definition enc6 (s : N) : N := nth (N.to_nat s) alphabet pad.

Definition dec6 (c : N) : option N :=
  if (65 <=? c) && (c <=? 90) then Some (c - 65)
  else if (97 <=? c) && (c <=? 122) then Some (c - 71)
  else if (48 <=? c) && (c <=? 57) then Some (c + 4)
  else if c =? 43 then Some 62
  else if c =? 47 then Some 63
  else None.

(** [binascii.b2a_base64(data, newline=False)]: three bytes become four
    characters, a short last group is padded with [=]. *)
Fixpoint b2a (data : bytes) : str :=
  match data with
  | [] => []
  | [x] =>
      let a := Byte.to_N x in
      [enc6 (a / 4); enc6 ((a mod 4) * 16); pad; pad]
  | [x; y] =>
      let a := Byte.to_N x in
      let b := Byte.to_N y in
      [enc6 (a / 4); enc6 ((a mod 4) * 16 + b / 16); enc6 ((b mod 16) * 4); pad]
  | x :: y :: z :: rest =>
      let a := Byte.to_N x in
      let b := Byte.to_N y in
      let c := Byte.to_N z in
      enc6 (a / 4) :: enc6 ((a mod 4) * 16 + b / 16)
        :: enc6 ((b mod 16) * 4 + c / 64) :: enc6 (c mod 64) :: b2a rest
  end.

(** [base64.b64encode(data)] *)
Definition b64encode (data : bytes) : str := b2a data.

(** [binascii.b2a_base64(data)]: the encoding and a line feed. *)
Definition b2a_base64 (data : bytes) : str := b2a data ++ [10].

Definition MAXLINESIZE : nat := 76.
Definition MAXBINSIZE : nat := (MAXLINESIZE / 4) * 3.

(** [base64.encodebytes(s)]: one line per [MAXBINSIZE] bytes of input.
    The loop [for i in range(0, len(s), MAXBINSIZE)] runs at most [len(s)]
    times, which is the fuel. *)
Fixpoint encode_pieces (fuel : nat) (s : bytes) : str :=
  match fuel, s with
  | _, [] => []
  | O, _ => []
  | S fuel', _ => b2a_base64 (take MAXBINSIZE s) ++ encode_pieces fuel' (drop MAXBINSIZE s)
  end.

Definition encodebytes (s : bytes) : str := encode_pieces (length s) s.

(** Decoding (RFC 4648): characters outside the alphabet, among them the
    padding and the line feeds, are skipped; four six-bit values give three
    bytes, a last group of three gives two, of two gives one. *)
Definition sextets (text : str) : list N := omap dec6 text.

Fixpoint from_sextets (q : list N) : bytes :=
  match q with
  | s0 :: s1 :: s2 :: s3 :: rest =>
      byte_of_N (s0 * 4 + s1 / 16) :: byte_of_N ((s1 mod 16) * 16 + s2 / 4)
        :: byte_of_N ((s2 mod 4) * 64 + s3) :: from_sextets rest
  | [s0; s1; s2] =>
      [byte_of_N (s0 * 4 + s1 / 16); byte_of_N ((s1 mod 16) * 16 + s2 / 4)]
  | [s0; s1] => [byte_of_N (s0 * 4 + s1 / 16)]
  | _ => []
  end.

Definition b64decode (text : str) : bytes := from_sextets (sextets text).

(** The six-bit values that [b2a] writes for the data, padding apart. *)
Fixpoint six_bits (data : bytes) : list N :=
  match data with
  | [] => []
  | [x] =>
      let a := Byte.to_N x in
      [a / 4; (a mod 4) * 16]
  | [x; y] =>
      let a := Byte.to_N x in
      let b := Byte.to_N y in
      [a / 4; (a mod 4) * 16 + b / 16; (b mod 16) * 4]
  | x :: y :: z :: rest =>
      let a := Byte.to_N x in
      let b := Byte.to_N y in
      let c := Byte.to_N z in
      a / 4 :: (a mod 4) * 16 + b / 16 :: (b mod 16) * 4 + c / 64 :: c mod 64
        :: six_bits rest
  end.

End Base64.

Module Email.

(** [str(Header(s, 'utf-8'))] for a [str] or [None]: the header keeps the
    text as one chunk after checking that it encodes to the charset. *)
Definition Header_str (s : option str) : result str :=
  match s with
  | None => inr []
  | Some s => _ ← encode_utf8 s; mret s
  end.

(** [specialsre]: the brackets, backslash, parentheses, angle brackets,
    at sign, comma, colon, semicolon, double quote and full stop. *)
Definition is_special (c : N) : bool :=
  bool_decide (c ∈ [93; 91; 92; 40; 41; 60; 62; 64; 44; 58; 59; 34; 46]).

(** [escapesre.sub(...)]: a backslash before every backslash and double
    quote. *)
Definition escape (name : str) : str :=
  mbind (M := list) (λ c, if (c =? 92) || (c =? 34) then [92; c] else [c]) name.

(** [Charset('utf-8').header_encode(name)] *)
Definition header_encode (name : str) : result str :=
  header_bytes ← encode_utf8 name;
  mret (match header_bytes with
        | [] => []
        | _ => lit "=?utf-8?b?" ++ Base64.b64encode header_bytes ++ lit "?="
        end).

(** [email.utils.formataddr((name, address))] *)
Definition formataddr (name address : str) : result str :=
  if negb (is_ascii address) then inl UnicodeEncodeError
  else
    match name with
    | [] => inr address
    | _ =>
        if is_ascii name then
          let quotes := if existsb is_special name then dquote else [] in
          inr (quotes ++ escape name ++ quotes ++ lit " <" ++ address ++ lit ">")
        else
          encoded_name ← header_encode name;
          mret (encoded_name ++ lit " <" ++ address ++ lit ">")
    end.

(** A message object: its header list, in insertion order, and payload. *)
Inductive payload :=
| NoPayload
| BytesPayload (data : bytes)
| TextPayload (text : str).

Record MIMEBase := {
  base_headers : list (str * str);
  base_payload : payload;
}.

(** [MIMEBase(maintype, subtype)] *)
Definition MIMEBase_new (maintype subtype : str) : MIMEBase :=
  {| base_headers := [(lit "Content-Type", maintype ++ lit "/" ++ subtype);
                      (lit "MIME-Version", lit "1.0")];
     base_payload := NoPayload |}.

Definition set_payload (part : MIMEBase) (p : payload) : MIMEBase :=
  {| base_headers := base_headers part; base_payload := p |}.

(** [part.add_header(name, value)] and [part[name] = value] both append. *)
Definition add_header (part : MIMEBase) (name value : str) : MIMEBase :=
  {| base_headers := base_headers part ++ [(name, value)];
     base_payload := base_payload part |}.

(** [part.get_payload(decode=True)] of a part without transfer encoding. *)
Definition get_payload_bytes (part : MIMEBase) : bytes :=
  match base_payload part with
  | BytesPayload data => data
  | _ => []
  end.

(** [email.encoders.encode_base64(part)] *)
Definition encode_base64 (part : MIMEBase) : MIMEBase :=
  let orig := get_payload_bytes part in
  let encdata := Base64.encodebytes orig in
  add_header (set_payload part (TextPayload encdata))
    (lit "Content-Transfer-Encoding") (lit "base64").

(** What [msg.attach] receives: the body made by [MIMEText(text, subtype,
    charset)], kept as its constructor arguments, or a [MIMEBase] part. *)
Inductive part :=
| MIMEText (text subtype charset : str)
| Base (p : MIMEBase).

Record MIMEMultipart := {
  headers : list (str * str);
  parts : list part;
}.

(** [MIMEMultipart()] *)
Definition MIMEMultipart_new : MIMEMultipart :=
  {| headers := [(lit "Content-Type", lit "multipart/mixed");
                 (lit "MIME-Version", lit "1.0")];
     parts := [] |}.

(** [msg[name] = value] *)
Definition setitem (msg : MIMEMultipart) (name value : str) : MIMEMultipart :=
  {| headers := headers msg ++ [(name, value)]; parts := parts msg |}.

(** [msg.attach(p)] *)
Definition attach (msg : MIMEMultipart) (p : part) : MIMEMultipart :=
  {| headers := headers msg; parts := parts msg ++ [p] |}.

(** [part[name]]: the first value stored under a header name. *)
Definition lookup_header (name : str) (hs : list (str * str)) : option str :=
  assoc name hs.

End Email.

(** ** [src/query-ai.py] *)

Module QueryAI.

(** The values the script passes as keyword arguments: strings, lists and
    dict literals, a dict being its items in the order written. *)
Inductive value :=
| VStr (s : str)
| VList (items : list value)
| VDict (items : list (str * value)).

(** The part of the API response the script reads. *)
Record ChatCompletionMessage := { content : option str }.
Record Choice := { message : ChatCompletionMessage }.
Record ChatCompletion := { choices : list Choice }.

Inductive event :=
| Create (kwargs : list (str * value))   (* [client.chat.completions.create] with these keywords *)
| PrintLine (text : str).                    (* [print(text)] *)

Record World := {
  openai_client : option exn;                          (* [OpenAI()] *)
  create : list (str * value) → result ChatCompletion; (* the answer to a request *)
  int : str → option Z;                                (* the builtin [int] on a string *)
  repr : str → str;                                    (* the builtin [repr] on a string *)
}.

Definition query_openai (w : World) (prompt model : str) (max_tokens : Z)
    : M event str :=
  call (openai_client w);;
  let kwargs :=
    [(lit "messages",
      VList [VDict [(lit "role", VStr (lit "user"));
                    (lit "content", VStr prompt)]]);
     (lit "model", VStr model)] in
  emit (Create kwargs);;
  chat_completion ← lift (create w kwargs);
  first ← match choices chat_completion with
          | [] => raise IndexError
          | c :: _ => mret c
          end;
  match content (message first) with
  | None => raise AttributeError
  | Some text => mret (strip text)
  end.

(** The command line, as the occurrences of the declared options in the
    order given, each with its raw value. *)
Inductive flag := Model | MaxTokens.

#[global] Instance flag_eq_dec : EqDecision flag.
Proof. solve_decision. Defined.

Record Namespace := { model : str; max_tokens : Z }.

Definition defaults : Namespace := {| model := lit "gpt-4o"; max_tokens := 150 |}.

(** One occurrence: both options store their value, [--max_tokens] after
    converting it with [type=int]. *)
Definition store (w : World) (ns : Namespace) (occ : flag * str) : result Namespace :=
  match occ with
  | (Model, v) => inr {| model := v; max_tokens := max_tokens ns |}
  | (MaxTokens, v) =>
      match int w v with
      | Some n => inr {| model := model ns; max_tokens := n |}
      | None =>
          inl (UsageError (lit "argument --max_tokens: invalid int value: " ++ repr w v))
      end
  end.

Fixpoint parse_from (w : World) (ns : Namespace) (argv : list (flag * str))
    : result Namespace :=
  match argv with
  | [] => inr ns
  | occ :: rest => ns' ← store w ns occ; parse_from w ns' rest
  end.

(** [parser.parse_args()] *)
Definition parse_args (w : World) (argv : list (flag * str)) : result Namespace :=
  parse_from w defaults argv.

Definition main (w : World) (argv : list (flag * str)) (stdin : str) : M event unit :=
  args ← lift (parse_args w argv);
  let user_prompt := strip stdin in
  response ← query_openai w user_prompt (model args) (max_tokens args);
  emit (PrintLine response).

(** For the statements: the values given for an option, the model an
    invocation asks for, and an invocation without its [--max_tokens]. *)
Definition given (f : flag) (argv : list (flag * str)) : list str :=
  omap (λ occ, if decide (occ.1 = f) then Some occ.2 else None) argv.

Definition model_argument (argv : list (flag * str)) : str :=
  default (model defaults) (last (given Model argv)).

Definition without_max_tokens (argv : list (flag * str)) : list (flag * str) :=
  filter (λ occ, occ.1 ≠ MaxTokens) argv.

(** The request of lines 37-45 for a prompt and a model. *)
Definition request (prompt model : str) : list (str * value) :=
  [(lit "messages",
    VList [VDict [(lit "role", VStr (lit "user"));
                  (lit "content", VStr prompt)]]);
   (lit "model", VStr model)].

End QueryAI.

(** ** [src/send-mail.py] *)

Module SendMail.
Import Email.

Inductive flag :=
| FromEmail | FromName | ToEmail | Subject
| Attachment | ContentType | ToName | CcEmail | CcName.

#[global] Instance flag_eq_dec : EqDecision flag.
Proof. solve_decision. Defined.

Definition option_string (f : flag) : str :=
  match f with
  | FromEmail => lit "--from-email"
  | FromName => lit "--from-name"
  | ToEmail => lit "--to-email"
  | Subject => lit "--subject"
  | Attachment => lit "--attachment"
  | ContentType => lit "--content-type"
  | ToName => lit "--to-name"
  | CcEmail => lit "--cc-email"
  | CcName => lit "--cc-name"
  end.

Record Namespace := {
  from_email : str;
  from_name : str;
  to_email : str;
  subject : str;
  attachment : list str;
  content_type : str;
  to_name : option str;
  cc_email : list str;
  cc_name : list str;
}.

(** The values given for an option, in command-line order: what
    [action='append'] collects. The default action keeps the last one. *)
Definition appended (f : flag) (argv : list (flag * str)) : list str :=
  omap (λ occ, if decide (occ.1 = f) then Some occ.2 else None) argv.

Definition stored (f : flag) (argv : list (flag * str)) : option str :=
  last (appended f argv).

Definition required : list flag := [FromEmail; FromName; ToEmail; Subject].

(** [parser.parse_args()]: every option has [type=str]. *)
Definition parse_args (argv : list (flag * str)) : result Namespace :=
  match stored FromEmail argv, stored FromName argv,
        stored ToEmail argv, stored Subject argv with
  | Some fe, Some fn, Some te, Some su =>
      inr {| from_email := fe; from_name := fn; to_email := te; subject := su;
             attachment := appended Attachment argv;
             content_type := default (lit "plain") (stored ContentType argv);
             to_name := stored ToName argv;
             cc_email := appended CcEmail argv;
             cc_name := appended CcName argv |}
  | _, _, _, _ =>
      let missing := filter (λ f, stored f argv = None) required in
      inl (UsageError (lit "the following arguments are required: "
                       ++ join (lit ", ") (option_string <$> missing)))
  end.

Definition parse_arguments (argv : list (flag * str)) : result Namespace :=
  args ← parse_args argv;
  (* Validating repeated arguments *)
  if bool_decide (0 < length (cc_name args))%nat
     && bool_decide (length (cc_email args) ≠ length (cc_name args))
  then inl (UsageError (lit "The number of --cc-email and --cc-name entries must match."))
  else inr args.

Inductive event :=
| Connect (host : str)                                  (* [SMTP(smtp_server)] *)
| Login (user password : str)                           (* [conn.login] *)
| Sendmail (from_addr : str) (to_addrs : list str) (msg : str)  (* [conn.sendmail] *)
| ConnQuit.                                                 (* [conn.quit] *)

#[global] Instance event_eq_dec : EqDecision event.
Proof. solve_decision. Defined.

Record World := {
  environ : gmap (list N) (list N);                 (* [os.environ] *)
  files : gmap (list N) (list Byte.byte);           (* the readable files *)
  smtp_connect : str → option exn;
  smtp_login : str → str → option exn;
  smtp_sendmail : str → list str → str → option exn;
  smtp_quit : option exn;
  as_string : MIMEMultipart → result str;           (* [msg.as_string()] *)
  str_exc : exn → str;                              (* [str(exc)] *)
}.

(** [os.environ[name]] *)
Definition getenv {E} (w : World) (name : str) : M E str :=
  match environ w !! name with
  | Some v => mret v
  | None => raise (KeyError name)
  end.

(** [open(name, 'rb').read()] *)
Definition read_file (w : World) (name : str) : result bytes :=
  match files w !! name with
  | Some data => inr data
  | None => inl (OSError name)
  end.

(** Lines 54-57: the value stored under [Cc]. *)
Definition cc_header (args : Namespace) : result str :=
  pairs ← comprehension
             (λ '(name, email), display ← Header_str (Some name); formataddr display email)
             (zip (cc_email args) (cc_name args));
  mret (join (lit ",") pairs).

(** Lines 64-76: the part made of one attachment. *)
Definition attachment_part (w : World) (attachment_name : str) : result MIMEBase :=
  data ← read_file w attachment_name;
  let part := MIMEBase_new (lit "application") (lit "octet-stream") in
  let part := set_payload part (BytesPayload data) in
  let part := encode_base64 part in
  let part := add_header part (lit "Content-Disposition")
                (lit "attachment; filename=" ++ attachment_name) in
  mret part.

(** Lines 63-79: the loop over [args.attachment]. *)
Fixpoint attach_files (w : World) (msg : MIMEMultipart) (names : list str)
    : result MIMEMultipart :=
  match names with
  | [] => inr msg
  | attachment_name :: rest =>
      part ← attachment_part w attachment_name;
      attach_files w (attach msg (Base part)) rest
  end.

(** Lines 50-57: the message object and its headers. *)
Definition message_headers (args : Namespace) : result MIMEMultipart :=
  let msg := MIMEMultipart_new in
  let msg := setitem msg (lit "Subject") (subject args) in
  name ← Header_str (Some (from_name args));
  addr ← formataddr name (from_email args);
  let msg := setitem msg (lit "From") addr in
  name ← Header_str (to_name args);
  addr ← formataddr name (to_email args);
  let msg := setitem msg (lit "To") addr in
  cc ← cc_header args;
  mret (setitem msg (lit "Cc") cc).

(** Lines 50-79: the message with its body and attachments. *)
Definition compose_message (w : World) (args : Namespace) (content : str)
    : result MIMEMultipart :=
  msg ← message_headers args;
  (* Body *)
  let msg := attach msg (MIMEText content (content_type args) (lit "utf-8")) in
  (* Attachments *)
  attach_files w msg (attachment args).

Definition send_mail (w : World) (args : Namespace) (content : str) : M event unit :=
  '(smtp_server, username, password) ←
    try_except
      (smtp_server ← getenv w (lit "SMTP_SERVER");
       username ← getenv w (lit "SMTP_USERNAME");
       password ← getenv w (lit "SMTP_PASSWORD");
       mret (smtp_server, username, password))
      (λ e, match e with
            | KeyError key =>
                Some (sys_exit (lit "Unable to find " ++ key
                                ++ lit " environment variable" ++ [10]))
            | _ => None
            end);
  let destination := [from_email args; to_email args] in
  msg ← lift (compose_message w args content);
  (* Send the email *)
  emit (Connect smtp_server);;
  call (smtp_connect w smtp_server);;
  (* [conn.set_debuglevel(False)] sets a field of the connection object *)
  emit (Login username password);;
  call (smtp_login w username password);;
  try_finally
    (try_except
       (text ← lift (as_string w msg);
        emit (Sendmail (from_email args) destination text);;
        call (smtp_sendmail w (from_email args) destination text))
       (λ exc,
          if is_Exception exc
          then Some (sys_exit (lit "mail to f" ++ to_email args ++ lit " failed; "
                               ++ str_exc w exc))
          else None))
    (emit ConnQuit;; call (smtp_quit w)).

Definition main (w : World) (argv : list (flag * str)) (stdin : str) : M event unit :=
  args ← lift (parse_arguments argv);
  let content := stdin in
  send_mail w args content.

(** For the statements: how often the connection was closed, the variables
    the tool needs, and the arguments with the CC addresses taken out. *)
Definition quits (tr : list event) : nat := length (filter (λ ev, ev = ConnQuit) tr).

Definition required_variables : list str :=
  [lit "SMTP_SERVER"; lit "SMTP_USERNAME"; lit "SMTP_PASSWORD"].

Definition without_cc_email (args : Namespace) : Namespace :=
  {| from_email := from_email args; from_name := from_name args;
     to_email := to_email args; subject := subject args;
     attachment := attachment args; content_type := content_type args;
     to_name := to_name args; cc_email := []; cc_name := cc_name args |}.

(** The SMTP session fails at the login, or at the sendmail call. *)
Definition fails_at_login (w : World) (tr : list event) : Prop :=
  ∃ u p e, Login u p ∈ tr ∧ smtp_login w u p = Some e.

Definition fails_at_sendmail (w : World) (tr : list event) : Prop :=
  ∃ f d m e, Sendmail f d m ∈ tr ∧ smtp_sendmail w f d m = Some e.

(** The [Cc] value in the words of the specification: the display name of
    the i-th pair is the i-th CC name, its address the i-th CC email. *)
Definition cc_header_spec (args : Namespace) : result str :=
  pairs ← comprehension
             (λ '(name, email), display ← Header_str (Some name); formataddr display email)
             (zip (cc_name args) (cc_email args));
  mret (join (lit ",") pairs).

End SendMail.

(** ** Sample inputs *)

Module Sample.
Import Email.

(** An unsigned decimal numeral, standing for [int] in the sample world. *)
Definition decimal (s : str) : option Z :=
  match s with
  | [] => None
  | _ =>
      if forallb (λ c, (48 <=? c) && (c <=? 57)) s
      then Some (fold_left (λ acc c, 10 * acc + Z.of_N (c - 48))%Z s 0%Z)
      else None
  end.

Definition api : QueryAI.World :=
  {| QueryAI.openai_client := None;
     QueryAI.create := λ _,
       inr {| QueryAI.choices :=
                [{| QueryAI.message :=
                      {| QueryAI.content := Some (lit "  Hello there! " ++ [10]) |} |}] |};
     QueryAI.int := decimal;
     QueryAI.repr := λ s, lit "'" ++ s ++ lit "'" |}.

Definition query_argv : list (QueryAI.flag * str) :=
  [(QueryAI.Model, lit "gpt-4o-mini"); (QueryAI.MaxTokens, lit "42")].

Definition query_argv' : list (QueryAI.flag * str) :=
  [(QueryAI.MaxTokens, lit "7"); (QueryAI.Model, lit "gpt-4o-mini")].

Definition query_stdin : str := lit "Say hello." ++ [10].

Definition describe (e : exn) : str :=
  match e with
  | SMTPException d | OSError d | OpenAIError d => d
  | _ => lit "error"
  end.

Definition environment : gmap (list N) (list N) :=
  {[ lit "SMTP_SERVER" := lit "smtp.example.org";
     lit "SMTP_USERNAME" := lit "alice";
     lit "SMTP_PASSWORD" := lit "secret" ]}.

Definition file_bin : bytes := [Byte.x00; Byte.xff; Byte.x10; Byte.x80].

(** A server that answers the login and the sendmail call as given. *)
Definition server (env : gmap (list N) (list N)) (login sendmail : option exn)
    : SendMail.World :=
  {| SendMail.environ := env;
     SendMail.files := {[ lit "file.bin" := file_bin ]};
     SendMail.smtp_connect := λ _, None;
     SendMail.smtp_login := λ _ _, login;
     SendMail.smtp_sendmail := λ _ _ _, sendmail;
     SendMail.smtp_quit := None;
     SendMail.as_string := λ _, inr (lit "(message)");
     SendMail.str_exc := describe |}.

Definition friendly : SendMail.World := server environment None None.

Definition rejecting_login : SendMail.World :=
  server environment (Some (SMTPException (lit "535 authentication failed"))) None.

Definition rejecting_mail : SendMail.World :=
  server environment None (Some (SMTPException (lit "550 mailbox unavailable"))).

Definition without_password : SendMail.World :=
  server (delete (lit "SMTP_PASSWORD") environment) None None.

Definition argv : list (SendMail.flag * str) :=
  [(SendMail.FromEmail, lit "alice@example.org"); (SendMail.FromName, lit "Alice");
   (SendMail.ToEmail, lit "bob@example.org"); (SendMail.Subject, lit "Hello")].

Definition argv_cc : list (SendMail.flag * str) :=
  argv ++ [(SendMail.CcEmail, lit "carol@example.org"); (SendMail.CcName, lit "Carol")].

(** The namespace of [argv] with the repeatable options as given. *)
Definition args_with (attachment cc_email cc_name : list str) : SendMail.Namespace :=
  {| SendMail.from_email := lit "alice@example.org";
     SendMail.from_name := lit "Alice";
     SendMail.to_email := lit "bob@example.org";
     SendMail.subject := lit "Hello";
     SendMail.attachment := attachment;
     SendMail.content_type := lit "plain";
     SendMail.to_name := None;
     SendMail.cc_email := cc_email;
     SendMail.cc_name := cc_name |}.

Definition args_cc : SendMail.Namespace :=
  args_with [] [lit "carol@example.org"] [lit "Carol"].

Definition args_cc_unnamed : SendMail.Namespace :=
  args_with [] [lit "carol@example.org"] [].

Definition args_attachment : SendMail.Namespace :=
  args_with [lit "file.bin"] [] [].

(** The message of [argv] before the body is attached. *)
Definition plain_headers : MIMEMultipart :=
  {| headers := [(lit "Content-Type", lit "multipart/mixed");
                 (lit "MIME-Version", lit "1.0");
                 (lit "Subject", lit "Hello");
                 (lit "From", lit "Alice <alice@example.org>");
                 (lit "To", lit "bob@example.org");
                 (lit "Cc", [])];
     parts := [] |}.

Definition session (sendmail_and_after : list SendMail.event) : list SendMail.event :=
  [SendMail.Connect (lit "smtp.example.org"); SendMail.Login (lit "alice") (lit "secret")]
  ++ sendmail_and_after.

Definition sent : SendMail.event :=
  SendMail.Sendmail (lit "alice@example.org")
    [lit "alice@example.org"; lit "bob@example.org"] (lit "(message)").

Definition query_args (max_tokens : Z) : QueryAI.Namespace :=
  {| QueryAI.model := lit "gpt-4o-mini"; QueryAI.max_tokens := max_tokens |}.

Definition argv_cc_mismatch : list (SendMail.flag * str) :=
  argv ++ [(SendMail.CcEmail, lit "a@x"); (SendMail.CcEmail, lit "b@x");
           (SendMail.CcName, lit "A")].

Definition argv_cc_unnamed : list (SendMail.flag * str) :=
  argv ++ [(SendMail.CcEmail, lit "carol@example.org")].

Definition argv_attachment : list (SendMail.flag * str) :=
  argv ++ [(SendMail.Attachment, lit "file.bin")].

Definition body : str := lit "hello".


(** More worlds: an API that answers as given, and a server whose every
    step answers as given. *)
Definition api_with (client : option exn) (answer : result QueryAI.ChatCompletion)
    : QueryAI.World :=
  {| QueryAI.openai_client := client;
     QueryAI.create := λ _, answer;
     QueryAI.int := decimal;
     QueryAI.repr := λ s, lit "'" ++ s ++ lit "'" |}.

Definition completion (texts : list (option str)) : QueryAI.ChatCompletion :=
  {| QueryAI.choices :=
       (λ text, {| QueryAI.message := {| QueryAI.content := text |} |}) <$> texts |}.

Definition server_with (connect login sendmail quit : option exn)
    (serialised : result str) : SendMail.World :=
  {| SendMail.environ := environment;
     SendMail.files := {[ lit "file.bin" := file_bin; lit "notes.txt" := [] ]};
     SendMail.smtp_connect := λ _, connect;
     SendMail.smtp_login := λ _ _, login;
     SendMail.smtp_sendmail := λ _ _ _, sendmail;
     SendMail.smtp_quit := quit;
     SendMail.as_string := λ _, serialised;
     SendMail.str_exc := describe |}.

Definition argv_two_attachments : list (SendMail.flag * str) :=
  argv ++ [(SendMail.Attachment, lit "file.bin"); (SendMail.Attachment, lit "notes.txt")].

Definition argv_missing_attachment : list (SendMail.flag * str) :=
  argv ++ [(SendMail.Attachment, lit "file.bin"); (SendMail.Attachment, lit "gone.pdf")].

Definition args_plain : SendMail.Namespace := args_with [] [] [].

(** The message of [argv] with the sample body. *)
Definition plain_message : MIMEMultipart :=
  {| headers := headers plain_headers;
     parts := [MIMEText body (lit "plain") (lit "utf-8")] |}.

(** A sender address with a Latin small letter e with acute. *)
Definition args_accented : SendMail.Namespace :=
  {| SendMail.from_email := lit "ren" ++ [233] ++ lit "@example.org";
     SendMail.from_name := lit "Alice";
     SendMail.to_email := lit "bob@example.org";
     SendMail.subject := lit "Hello";
     SendMail.attachment := [];
     SendMail.content_type := lit "plain";
     SendMail.to_name := None;
     SendMail.cc_email := [];
     SendMail.cc_name := [] |}.

Definition accepting : SendMail.World :=
  server_with None None None None (inr (lit "(message)")).

Definition rate_limited : exn := OpenAIError (lit "429 rate limit").
Definition mailbox_unavailable : exn := SMTPException (lit "550 mailbox unavailable").
End Sample.

(** * Properties *)

Ltac Zify.zify_post_hook ::= Z.to_euclidean_division_equations.

(** ** Base64: decoding what [encodebytes] wrote gives the data back *)

Section Base64_facts.
Import Base64.

Lemma byte_of_to_N (x : Byte.byte) : byte_of_N (Byte.to_N x) = x.
Proof. unfold byte_of_N. by rewrite Byte.of_to_N. Qed.

Lemma to_N_lt (x : Byte.byte) : Byte.to_N x < 256.
Proof. pose proof (Byte.to_N_bounded x). lia. Qed.

Lemma dec6_enc6 (s : N) : s < 64 → dec6 (enc6 s) = Some s.
Proof.
  intros Hs. unfold enc6.
  remember (N.to_nat s) as n eqn:Hn.
  assert (s = N.of_nat n) as -> by lia.
  assert (n < 64)%nat as Hlt by lia. clear Hn Hs.
  do 64 (destruct n as [|n]; [reflexivity|]). lia.
Qed.

(** Induction over a byte string three bytes at a time. *)
Lemma bytes_ind3 (P : bytes → Prop) :
  P [] → (∀ x, P [x]) → (∀ x y, P [x; y]) →
  (∀ x y z rest, P rest → P (x :: y :: z :: rest)) →
  ∀ data, P data.
Proof.
  intros H0 H1 H2 H3 data.
  cut (P data ∧ (∀ x, P (x :: data)) ∧ (∀ x y, P (x :: y :: data))); [tauto|].
  induction data as [|a d (IHa & IHb & IHc)]; [by auto|].
  split_and!; auto.
Qed.

Lemma sextets_b2a (data : bytes) : sextets (b2a data) = six_bits data.
Proof.
  unfold sextets.
  induction data as [|x|x y|x y z rest IH] using bytes_ind3; [done|..].
  - pose proof (to_N_lt x). cbn [b2a six_bits omap list_omap].
    rewrite !dec6_enc6 by lia. done.
  - pose proof (to_N_lt x). pose proof (to_N_lt y).
    cbn [b2a six_bits omap list_omap].
    rewrite !dec6_enc6 by lia. done.
  - pose proof (to_N_lt x). pose proof (to_N_lt y). pose proof (to_N_lt z).
    cbn [b2a six_bits omap list_omap].
    rewrite !dec6_enc6 by lia. by rewrite IH.
Qed.

Lemma byte_of_N_eq (n : N) (x : Byte.byte) : n = Byte.to_N x → byte_of_N n = x.
Proof. intros ->. apply byte_of_to_N. Qed.

Lemma from_sextets_six_bits (data : bytes) : from_sextets (six_bits data) = data.
Proof.
  induction data as [|x|x y|x y z rest IH] using bytes_ind3; [done|..].
  - pose proof (to_N_lt x). cbn [six_bits from_sextets].
    repeat f_equal; apply byte_of_N_eq; lia.
  - pose proof (to_N_lt x). pose proof (to_N_lt y).
    cbn [six_bits from_sextets].
    repeat f_equal; apply byte_of_N_eq; lia.
  - pose proof (to_N_lt x). pose proof (to_N_lt y). pose proof (to_N_lt z).
    cbn [six_bits from_sextets]. rewrite IH.
    repeat f_equal; apply byte_of_N_eq; lia.
Qed.

Lemma six_bits_app (k : nat) (xs ys : bytes) :
  length xs = (3 * k)%nat → six_bits (xs ++ ys) = six_bits xs ++ six_bits ys.
Proof.
  revert xs. induction k as [|k IH]; intros xs Hlen.
  - by destruct xs.
  - destruct xs as [|x [|y [|z rest]]]; simpl in Hlen; try lia.
    cbn [app six_bits]. rewrite IH by lia. done.
Qed.

Lemma encode_pieces_nil (fuel : nat) : encode_pieces fuel [] = [].
Proof. by destruct fuel. Qed.

Lemma sextets_encode_pieces (fuel : nat) (s : bytes) :
  (length s ≤ fuel)%nat → sextets (encode_pieces fuel s) = six_bits s.
Proof.
  revert s. induction fuel as [|fuel IH]; intros s Hlen.
  - by destruct s; [|simpl in Hlen; lia].
  - destruct s as [|x s']; [done|].
    remember (x :: s') as s eqn:Hs.
    assert (0 < length s)%nat by (subst s; simpl; lia).
    replace (encode_pieces (S fuel) s)
      with (b2a_base64 (take MAXBINSIZE s) ++ encode_pieces fuel (drop MAXBINSIZE s))
      by (by subst s).
    unfold b2a_base64, sextets. rewrite !omap_app.
    fold (sextets (b2a (take MAXBINSIZE s))).
    fold (sextets (encode_pieces fuel (drop MAXBINSIZE s))).
    rewrite sextets_b2a, IH.
    2:{ rewrite length_drop. change MAXBINSIZE with 57%nat. lia. }
    change (omap dec6 [10]) with (@nil N). rewrite app_nil_r.
    change MAXBINSIZE with 57%nat.
    destruct (decide (length s ≤ 57)%nat) as [Hle|Hgt].
    + rewrite take_ge, drop_ge by done. by rewrite app_nil_r.
    + rewrite <-(six_bits_app 19) by (rewrite length_take; lia).
      by rewrite take_drop.
Qed.

Lemma b64decode_encodebytes (s : bytes) : b64decode (encodebytes s) = s.
Proof.
  unfold b64decode, encodebytes.
  rewrite sextets_encode_pieces by done. apply from_sextets_six_bits.
Qed.

Lemma b64decode_b64encode (s : bytes) : b64decode (b64encode s) = s.
Proof.
  unfold b64decode, b64encode. rewrite sextets_b2a. apply from_sextets_six_bits.
Qed.
End Base64_facts.
(** ** [str.strip] *)

Section strip_facts.

Lemma lstrip_spec (s : str) :
  ∃ pre, s = pre ++ lstrip s ∧ Forall (λ c, isspace c = true) pre.
Proof.
  induction s as [|c s (pre & Heq & Hpre)]; [by exists []|].
  simpl. destruct (isspace c) eqn:Hc.
  - exists (c :: pre). split; [by rewrite Heq at 1|by constructor].
  - by exists [].
Qed.

Lemma lstrip_head (s : str) (c : N) : head (lstrip s) = Some c → isspace c = false.
Proof.
  induction s as [|a s IH]; [done|]. simpl.
  destruct (isspace a) eqn:Ha; [done|]. simpl. by intros [= <-].
Qed.

Lemma rstrip_spec (s : str) :
  ∃ post, s = rstrip s ++ post ∧ Forall (λ c, isspace c = true) post.
Proof.
  destruct (lstrip_spec (reverse s)) as (pre & Heq & Hpre).
  exists (reverse pre). split.
  - unfold rstrip. rewrite <-reverse_app, <-Heq. by rewrite reverse_involutive.
  - by apply Forall_reverse.
Qed.

Lemma rstrip_last (s : str) (c : N) : last (rstrip s) = Some c → isspace c = false.
Proof.
  unfold rstrip. rewrite last_reverse. apply lstrip_head.
Qed.

(** [strip] removes a run of white space at each end, and no more. *)
Lemma strip_spec (s : str) :
  (∃ pre post, s = pre ++ strip s ++ post
     ∧ Forall (λ c, isspace c = true) pre ∧ Forall (λ c, isspace c = true) post)
  ∧ (∀ c, head (strip s) = Some c → isspace c = false)
  ∧ (∀ c, last (strip s) = Some c → isspace c = false).
Proof.
  destruct (lstrip_spec s) as (pre & Heq & Hpre).
  destruct (rstrip_spec (lstrip s)) as (post & Heq' & Hpost).
  split_and!.
  - exists pre, post. unfold strip. by rewrite <-Heq'.
  - intros c Hc. apply (lstrip_head s). unfold strip in Hc.
    rewrite Heq'. destruct (rstrip (lstrip s)); [done|]. done.
  - apply rstrip_last.
Qed.

End strip_facts.

(** ** The effect monad *)

Ltac unfold_M :=
  unfold run, call, sys_exit, lift, emit, try_except, try_finally in *;
  unfold raise, mbind, mret, M_bind, M_ret, result_bind, result_ret in *.

(** ** The Prompt Query Tool *)

Section QueryAI_facts.
Import QueryAI.

Lemma last_cons_default {A} (d x : A) (l : list A) :
  default d (last (x :: l)) = default x (last l).
Proof.
  destruct l as [|y l]; [done|].
  rewrite last_cons_cons.
  by destruct (proj2 (last_is_Some (y :: l))) as [z ->].
Qed.

Lemma given_without_max_tokens (argv : list (flag * str)) :
  given Model (without_max_tokens argv) = given Model argv.
Proof.
  unfold given, without_max_tokens.
  induction argv as [|[[] v] argv IH]; [done|..].
  - rewrite filter_cons_True by done.
    change (omap ?f ((Model, v) :: ?l)) with (v :: omap f l). by f_equal.
  - rewrite filter_cons_False by (simpl; auto). done.
Qed.

Lemma parse_from_model (w : World) (argv : list (flag * str)) (ns ns' : Namespace) :
  parse_from w ns argv = inr ns' →
  model ns' = default (model ns) (last (given Model argv)).
Proof.
  revert ns. induction argv as [|[[] v] argv IH]; intros ns Hparse; simpl in Hparse.
  - by injection Hparse as <-.
  - apply IH in Hparse. rewrite Hparse. simpl model.
    change (given Model ((Model, v) :: argv)) with (v :: given Model argv).
    by rewrite last_cons_default.
  - unfold mbind, result_bind in Hparse. destruct (int w v); [|done].
    simpl in Hparse. apply IH in Hparse. by rewrite Hparse.
Qed.

Lemma parse_args_model (w : World) (argv : list (flag * str)) (args : Namespace) :
  parse_args w argv = inr args → model args = model_argument argv.
Proof. apply parse_from_model. Qed.

(** The trace of [query_openai] never depends on [max_tokens]. *)
Lemma query_openai_max_tokens (w : World) (prompt model : str) (m1 m2 : Z) :
  query_openai w prompt model m1 = query_openai w prompt model m2.
Proof. reflexivity. Qed.

End QueryAI_facts.

Section QueryAI_claims.
Import QueryAI.

Lemma parse_from_max_tokens (w : World) (argv : list (flag * str)) (ns ns' : Namespace) :
  parse_from w ns argv = inr ns' →
  match last (given MaxTokens argv) with
  | Some v => int w v = Some (max_tokens ns')
  | None => max_tokens ns' = max_tokens ns
  end.
Proof.
  revert ns. induction argv as [|[[] v] argv IH]; intros ns Hparse; simpl in Hparse.
  - by injection Hparse as <-.
  - by apply IH in Hparse.
  - unfold mbind, result_bind in Hparse. destruct (int w v) as [n|] eqn:Hint; [|done].
    simpl in Hparse. apply IH in Hparse. simpl in Hparse.
    change (given MaxTokens ((MaxTokens, v) :: argv)) with (v :: given MaxTokens argv).
    destruct (given MaxTokens argv) as [|v' l]; [simpl in *; congruence|].
    rewrite last_cons_cons.
    by destruct (proj2 (last_is_Some (v' :: l))) as [z Hz]; [|rewrite Hz in *].
Qed.

(** What [query_openai] leaves in the trace: nothing when the client cannot
    be made, the one request otherwise. *)
Lemma query_openai_trace (w : World) (prompt model : str) (mt : Z) :
  (run (query_openai w prompt model mt)).2 = []
  ∨ (run (query_openai w prompt model mt)).2 = [Create (request prompt model)].
Proof.
  unfold query_openai, request. unfold_M.
  destruct (openai_client w); simpl; [by left|right].
  destruct (create w _) as [e|[[|[[[text|]]] rest]]]; done.
Qed.

Lemma main_trace (w : World) (argv : list (flag * str)) (stdin : str) (args : Namespace)
    (kwargs : list (str * value)) :
  parse_args w argv = inr args →
  Create kwargs ∈ (run (main w argv stdin)).2 →
  kwargs = request (strip stdin) (model args).
Proof.
  intros Hparse. unfold main. unfold_M. rewrite Hparse.
  pose proof (query_openai_trace w (strip stdin) (model args) (max_tokens args)) as Htr.
  unfold run in Htr.
  destruct (query_openai w (strip stdin) (model args) (max_tokens args) [])
    as [[e|response] tr]; simpl in *.
  - destruct Htr as [-> | ->]; intros Hin; decompose_list_elem_of; congruence.
  - destruct Htr as [-> | ->]; intros Hin; decompose_list_elem_of; congruence.
Qed.

(** C4. The value of [--max_tokens] is accepted and parsed, but it is not
    part of the completion request: the namespace holds the integer read
    from the last [--max_tokens] value, two invocations that differ only
    in their [--max_tokens] run identically, and no request carries a
    [max_tokens] keyword. *)
Theorem max_tokens_parsed_but_not_sent
    (w : World) (argv1 argv2 : list (flag * str)) (stdin : str)
    (args1 args2 : Namespace) :
  parse_args w argv1 = inr args1 →
  parse_args w argv2 = inr args2 →
  without_max_tokens argv1 = without_max_tokens argv2 →
  (∀ v, last (given MaxTokens argv1) = Some v → int w v = Some (max_tokens args1))
  ∧ run (main w argv1 stdin) = run (main w argv2 stdin)
  ∧ (∀ kwargs, Create kwargs ∈ (run (main w argv1 stdin)).2 →
       assoc (lit "max_tokens") kwargs = None).
Proof.
  intros Hp1 Hp2 Hsame. split_and!.
  - intros v Hv. apply parse_from_max_tokens in Hp1. by rewrite Hv in Hp1.
  - assert (model args1 = model args2) as Hmodel.
    { rewrite (parse_args_model _ _ _ Hp1), (parse_args_model _ _ _ Hp2).
      unfold model_argument.
      by rewrite <-(given_without_max_tokens argv1), Hsame, given_without_max_tokens. }
    unfold main. unfold_M. rewrite Hp1, Hp2, Hmodel.
    by rewrite (query_openai_max_tokens w _ _ (max_tokens args1) (max_tokens args2)).
  - intros kwargs Hin. by rewrite (main_trace _ _ _ _ _ Hp1 Hin).
Qed.

(** C8. The prompt, which is the text of standard input stripped, goes out
    in exactly one request, as the content of a single user message, with
    the model the command line asks for; the tool returns, and prints,
    the text of the first choice stripped of surrounding white space. *)
Theorem prompt_sent_as_single_user_message
    (w : World) (argv : list (flag * str)) (stdin : str) (args : Namespace)
    (completion : ChatCompletion) (first : Choice) (others : list Choice) (text : str) :
  parse_args w argv = inr args →
  openai_client w = None →
  create w (request (strip stdin) (model_argument argv)) = inr completion →
  choices completion = first :: others →
  content (message first) = Some text →
  run (query_openai w (strip stdin) (model args) (max_tokens args))
    = (inr (strip text), [Create (request (strip stdin) (model_argument argv))])
  ∧ run (main w argv stdin)
    = (inr (), [Create (request (strip stdin) (model_argument argv));
                PrintLine (strip text)]).
Proof.
  intros Hparse Hclient Hcreate Hchoices Hcontent.
  rewrite <-(parse_args_model _ _ _ Hparse) in *.
  assert (run (query_openai w (strip stdin) (model args) (max_tokens args))
          = (inr (strip text), [Create (request (strip stdin) (model args))])) as Hq.
  { unfold query_openai. unfold_M. rewrite Hclient. simpl.
    unfold request in Hcreate. rewrite Hcreate. simpl.
    by rewrite Hchoices, Hcontent. }
  split; [done|].
  unfold main. unfold_M. rewrite Hparse. unfold run in Hq. by rewrite Hq.
Qed.

(** *** Further properties of the Prompt Query Tool *)

Lemma lstrip_blank (s : str) : Forall (λ c, isspace c = true) s → lstrip s = [].
Proof.
  induction 1 as [|c s Hc _ IH]; [done|]. simpl. by rewrite Hc.
Qed.

Lemma strip_blank (s : str) : Forall (λ c, isspace c = true) s → strip s = [].
Proof. intros Hs. unfold strip. by rewrite (lstrip_blank s Hs). Qed.

(** Every way [main] can run. *)
Lemma query_main_cases (w : World) (argv : list (flag * str)) (stdin : str) :
  (∃ e, parse_args w argv = inl e ∧ run (main w argv stdin) = (inl e, []))
  ∨ (∃ e, openai_client w = Some e ∧ run (main w argv stdin) = (inl e, []))
  ∨ (∃ e, run (main w argv stdin)
          = (inl e, [Create (request (strip stdin) (model_argument argv))]))
  ∨ (∃ text, run (main w argv stdin)
             = (inr (), [Create (request (strip stdin) (model_argument argv));
                         PrintLine (strip text)])).
Proof.
  unfold main. unfold_M.
  destruct (parse_args w argv) as [e|args] eqn:Hparse; [left; by exists e|right].
  rewrite <-(parse_args_model _ _ _ Hparse).
  unfold query_openai, request. unfold_M.
  destruct (openai_client w) as [e|]; simpl; [left; by exists e|right].
  destruct (create w _) as [e|[[|[[[text|]]] rest]]]; simpl; eauto.
Qed.

(** X1. When the API call raises, the error ends the run: one request went
    out, there is no second attempt, and nothing is printed. *)
Theorem api_error_propagates
    (w : World) (argv : list (flag * str)) (stdin : str) (args : Namespace) (e : exn) :
  parse_args w argv = inr args →
  openai_client w = None →
  create w (request (strip stdin) (model_argument argv)) = inl e →
  run (main w argv stdin)
  = (inl e, [Create (request (strip stdin) (model_argument argv))])
  ∧ exit_status (run (main w argv stdin)).1 ≠ 0%Z.
Proof.
  intros Hparse Hclient Hcreate.
  assert (run (main w argv stdin)
          = (inl e, [Create (request (strip stdin) (model_argument argv))])) as Hrun.
  { unfold main. unfold_M. rewrite Hparse.
    rewrite <-(parse_args_model _ _ _ Hparse) in *.
    unfold query_openai. unfold_M. rewrite Hclient. simpl.
    unfold request in Hcreate. by rewrite Hcreate. }
  rewrite Hrun. split; [done|]. by destruct e.
Qed.

(** X2. A response without choices makes [choices[0]] raise IndexError:
    the run ends with it after the one request, and prints nothing. *)
Theorem empty_choices_is_IndexError
    (w : World) (argv : list (flag * str)) (stdin : str) (args : Namespace)
    (completion : ChatCompletion) :
  parse_args w argv = inr args →
  openai_client w = None →
  create w (request (strip stdin) (model_argument argv)) = inr completion →
  choices completion = [] →
  run (main w argv stdin)
  = (inl IndexError, [Create (request (strip stdin) (model_argument argv))]).
Proof.
  intros Hparse Hclient Hcreate Hchoices.
  unfold main. unfold_M. rewrite Hparse.
  rewrite <-(parse_args_model _ _ _ Hparse) in *.
  unfold query_openai. unfold_M. rewrite Hclient. simpl.
  unfold request in Hcreate. rewrite Hcreate. simpl. by rewrite Hchoices.
Qed.

(** X3. A first choice whose content is None makes [.strip()] raise
    AttributeError, whatever the other choices hold: nothing is printed. *)
Theorem missing_content_is_AttributeError
    (w : World) (argv : list (flag * str)) (stdin : str) (args : Namespace)
    (completion : ChatCompletion) (first : Choice) (others : list Choice) :
  parse_args w argv = inr args →
  openai_client w = None →
  create w (request (strip stdin) (model_argument argv)) = inr completion →
  choices completion = first :: others →
  content (message first) = None →
  run (main w argv stdin)
  = (inl AttributeError, [Create (request (strip stdin) (model_argument argv))]).
Proof.
  intros Hparse Hclient Hcreate Hchoices Hcontent.
  unfold main. unfold_M. rewrite Hparse.
  rewrite <-(parse_args_model _ _ _ Hparse) in *.
  unfold query_openai. unfold_M. rewrite Hclient. simpl.
  unfold request in Hcreate. rewrite Hcreate. simpl. by rewrite Hchoices, Hcontent.
Qed.

(** X4. When the client cannot be constructed, no request is made and
    nothing is printed. *)
Theorem client_failure_makes_no_request
    (w : World) (argv : list (flag * str)) (stdin : str) (args : Namespace) (e : exn) :
  parse_args w argv = inr args →
  openai_client w = Some e →
  run (main w argv stdin) = (inl e, []).
Proof.
  intros Hparse Hclient. unfold main. unfold_M. rewrite Hparse.
  unfold query_openai. unfold_M. by rewrite Hclient.
Qed.

(** X5. A standard input of white space only is not rejected: the request
    goes out with an empty prompt. *)
Theorem blank_prompt_is_still_sent
    (w : World) (argv : list (flag * str)) (stdin : str) (args : Namespace) :
  parse_args w argv = inr args →
  openai_client w = None →
  Forall (λ c, isspace c = true) stdin →
  ∃ rest, (run (main w argv stdin)).2
          = Create (request [] (model_argument argv)) :: rest.
Proof.
  intros Hparse Hclient Hblank.
  destruct (query_main_cases w argv stdin)
    as [(e & He & _)|[(e & He & _)|[(e & Hrun)|(text & Hrun)]]];
    [congruence|congruence|..];
    rewrite Hrun, (strip_blank _ Hblank); by eexists.
Qed.

(** X6. A [--max_tokens] value that is not an integer stops the tool with a
    usage error before any request, although the value is never used. *)
Theorem invalid_max_tokens_is_usage_error
    (w : World) (argv : list (flag * str)) (stdin : str) (v : str) :
  v ∈ given MaxTokens argv →
  int w v = None →
  ∃ message,
    run (main w argv stdin) = (inl (UsageError message), [])
    ∧ exit_status (run (main w argv stdin)).1 = 2%Z.
Proof.
  intros Hin Hint.
  assert (∀ ns, ∃ message, parse_from w ns argv = inl (UsageError message)) as Hparse.
  { induction argv as [|[[] v'] argv IH]; intros ns.
    - by apply elem_of_nil in Hin.
    - simpl. apply IH. done.
    - simpl. unfold_M. destruct (int w v') as [n|] eqn:Hv'; [|by eexists].
      apply IH. change (given MaxTokens ((MaxTokens, v') :: argv))
        with (v' :: given MaxTokens argv) in Hin.
      apply elem_of_cons in Hin as [->|Hin]; [congruence|done]. }
  destruct (Hparse defaults) as [message Hmessage]. exists message.
  unfold main, parse_args. unfold_M. by rewrite Hmessage.
Qed.

(** X7. Whatever is printed neither starts nor ends with white space. *)
Theorem printed_text_is_stripped
    (w : World) (argv : list (flag * str)) (stdin : str) (text : str) :
  PrintLine text ∈ (run (main w argv stdin)).2 →
  (∀ c, head text = Some c → isspace c = false)
  ∧ (∀ c, last text = Some c → isspace c = false).
Proof.
  destruct (query_main_cases w argv stdin)
    as [(e & _ & Hrun)|[(e & _ & Hrun)|[(e & Hrun)|(answer & Hrun)]]];
    rewrite Hrun; simpl; intros Hin; decompose_list_elem_of; simplify_eq.
  apply strip_spec.
Qed.

(** X8. The tool makes at most one request, and it exits with status zero
    exactly when it printed a response. *)
Theorem success_iff_printed
    (w : World) (argv : list (flag * str)) (stdin : str) :
  (∀ i j k1 k2,
     (run (main w argv stdin)).2 !! i = Some (Create k1) →
     (run (main w argv stdin)).2 !! j = Some (Create k2) → i = j)
  ∧ (exit_status (run (main w argv stdin)).1 = 0%Z
     ↔ ∃ text, PrintLine text ∈ (run (main w argv stdin)).2).
Proof.
  destruct (query_main_cases w argv stdin)
    as [(e & _ & Hrun)|[(e & _ & Hrun)|[(e & Hrun)|(answer & Hrun)]]];
    rewrite Hrun; simpl; (split; [|split]).
  all: try (intros [|[|i]] [|[|j]] k1 k2; simpl; by intros).
  all: try (by destruct e).
  all: try (intros (text & Hin); decompose_list_elem_of; by simplify_eq).
  intros _. exists (strip answer). repeat constructor.
Qed.
End QueryAI_claims.

(** ** The Mail Sender Tool *)

Section SendMail_facts.
Import Email SendMail.
#[local] Opaque lit.

Lemma main_unfold (w : World) (argv : list (flag * str)) (stdin : str) :
  run (main w argv stdin)
  = match parse_arguments argv with
    | inl e => (inl e, [])
    | inr args => run (send_mail w args stdin)
    end.
Proof. unfold main. unfold_M. by destruct (parse_arguments argv). Qed.

Lemma parse_args_fields (argv : list (flag * str)) (args : Namespace) :
  parse_args argv = inr args →
  stored FromEmail argv = Some (from_email args)
  ∧ stored ToEmail argv = Some (to_email args)
  ∧ attachment args = appended Attachment argv
  ∧ cc_email args = appended CcEmail argv
  ∧ cc_name args = appended CcName argv.
Proof.
  unfold parse_args.
  destruct (stored FromEmail argv), (stored FromName argv),
    (stored ToEmail argv), (stored Subject argv); try done.
  by intros [= <-].
Qed.

Lemma parse_arguments_inr (argv : list (flag * str)) (args : Namespace) :
  parse_arguments argv = inr args → parse_args argv = inr args.
Proof.
  unfold parse_arguments. unfold_M.
  destruct (parse_args argv) as [e|ns]; [done|].
  by destruct (_ && _); intros [= <-].
Qed.

(** Every way [send_mail] can run, one goal per path. *)
Ltac send_mail_paths :=
  unfold send_mail, getenv; unfold_M; simpl;
  repeat (case_match; simpl in *; simplify_eq).

Lemma send_mail_envelope (w : World) (args : Namespace) (content : str)
    (f : str) (d : list str) (m : str) :
  Sendmail f d m ∈ (run (send_mail w args content)).2 →
  f = from_email args ∧ d = [from_email args; to_email args].
Proof.
  send_mail_paths; intros Hin; simpl in Hin;
    decompose_list_elem_of; by simplify_eq.
Qed.

(** C2. Whenever the tool reaches the sendmail call, the envelope
    recipients are the sender's and the recipient's address, in that
    order, and nothing else: the CC addresses are not among them however
    many [--cc-email] options were given. *)
Theorem envelope_is_from_and_to
    (w : World) (argv : list (flag * str)) (stdin : str)
    (f : str) (d : list str) (m : str) :
  Sendmail f d m ∈ (run (main w argv stdin)).2 →
  ∃ from to,
    stored FromEmail argv = Some from ∧ stored ToEmail argv = Some to
    ∧ f = from ∧ d = [from; to].
Proof.
  rewrite main_unfold.
  destruct (parse_arguments argv) as [e|args] eqn:Hparse.
  - simpl. by intros ?%elem_of_nil.
  - intros [-> ->]%send_mail_envelope.
    apply parse_arguments_inr, parse_args_fields in Hparse as (Hf & Ht & _).
    by exists (from_email args), (to_email args).
Qed.

Lemma send_mail_quits (w : World) (args : Namespace) (content : str)
    (f : str) (d : list str) (m : str) :
  Sendmail f d m ∈ (run (send_mail w args content)).2 →
  quits (run (send_mail w args content)).2 = 1%nat
  ∧ last (run (send_mail w args content)).2 = Some ConnQuit.
Proof.
  send_mail_paths; intros Hin; simpl in Hin;
    decompose_list_elem_of; by simplify_eq.
Qed.

(** C7. In every run that reaches the sendmail call the connection is
    closed exactly once, whether sendmail returns or raises. *)
Theorem quit_exactly_once
    (w : World) (argv : list (flag * str)) (stdin : str)
    (f : str) (d : list str) (m : str) :
  Sendmail f d m ∈ (run (main w argv stdin)).2 →
  quits (run (main w argv stdin)).2 = 1%nat.
Proof.
  rewrite main_unfold. destruct (parse_arguments argv) as [e|args].
  - simpl. by intros ?%elem_of_nil.
  - by intros [? _]%send_mail_quits.
Qed.

Lemma send_mail_failure (w : World) (args : Namespace) (content : str)
    (r : result unit) (tr : list event) :
  run (send_mail w args content) = (r, tr) →
  fails_at_login w tr ∨ fails_at_sendmail w tr →
  (∃ e, r = inl e)
  ∧ (fails_at_sendmail w tr → last tr = Some ConnQuit ∧ quits tr = 1%nat).
Proof.
  unfold fails_at_login, fails_at_sendmail.
  send_mail_paths; intros [= <- <-] Hfail; (split; [|intros Hsend; clear Hfail]);
    repeat match goal with
           | H : _ ∨ _ |- _ => destruct H
           | H : ∃ _, _ |- _ => destruct H
           | H : _ ∧ _ |- _ => destruct H
           end;
    decompose_list_elem_of; simplify_eq; eauto.
Qed.

(** C3, as the code has it. A run in which the login or the sendmail call
    fails ends fatally; when it is the sendmail call that fails, the
    connection is closed before the process exits: quit is the last SMTP
    action, and it happens once. *)
Theorem session_failure_is_fatal
    (w : World) (argv : list (flag * str)) (stdin : str)
    (r : result unit) (tr : list event) :
  run (main w argv stdin) = (r, tr) →
  fails_at_login w tr ∨ fails_at_sendmail w tr →
  (∃ e, r = inl e) ∧ exit_status r ≠ 0%Z
  ∧ (fails_at_sendmail w tr → last tr = Some ConnQuit ∧ quits tr = 1%nat).
Proof.
  rewrite main_unfold. destruct (parse_arguments argv) as [e|args].
  - intros [= <- <-] [(? & ? & ? & []%elem_of_nil & _)|(? & ? & ? & ? & []%elem_of_nil & _)].
  - intros Hrun Hfail.
    destruct (send_mail_failure _ _ _ _ _ Hrun Hfail) as [[e ->] Hquit].
    split_and!; [by eexists|by destruct e|done].
Qed.

Lemma send_mail_missing_variable (w : World) (args : Namespace) (content : str) :
  (∃ key, key ∈ required_variables ∧ environ w !! key = None) →
  ∃ key, key ∈ required_variables ∧ environ w !! key = None
    ∧ run (send_mail w args content)
      = (inl (SystemExit (lit "Unable to find " ++ key
                          ++ lit " environment variable" ++ [10])), []).
Proof.
  intros (key & Hkey & Hnone). unfold required_variables in *.
  unfold send_mail, getenv. unfold_M.
  destruct (environ w !! lit "SMTP_SERVER") as [server|] eqn:Hserver;
    [|exists (lit "SMTP_SERVER"); split_and!; [repeat constructor|done|done]].
  destruct (environ w !! lit "SMTP_USERNAME") as [username|] eqn:Husername;
    [|exists (lit "SMTP_USERNAME"); split_and!; [repeat constructor|done|done]].
  destruct (environ w !! lit "SMTP_PASSWORD") as [password|] eqn:Hpassword;
    [|exists (lit "SMTP_PASSWORD"); split_and!; [repeat constructor|done|done]].
  decompose_list_elem_of; congruence.
Qed.

(** C5. When one of the three variables is unset the tool exits with a
    status other than zero without any SMTP action, and, the command line
    being in order, with a diagnostic that names an unset variable. *)
Theorem missing_variable_is_fatal
    (w : World) (argv : list (flag * str)) (stdin : str) :
  (∃ key, key ∈ required_variables ∧ environ w !! key = None) →
  (run (main w argv stdin)).2 = []
  ∧ exit_status (run (main w argv stdin)).1 ≠ 0%Z
  ∧ (∀ args, parse_arguments argv = inr args →
       ∃ key, key ∈ required_variables ∧ environ w !! key = None
         ∧ (run (main w argv stdin)).1
           = inl (SystemExit (lit "Unable to find " ++ key
                              ++ lit " environment variable" ++ [10]))).
Proof.
  intros Hmissing. rewrite main_unfold.
  destruct (parse_arguments argv) as [e|args].
  - split_and!; [done|by destruct e|done].
  - destruct (send_mail_missing_variable w args stdin Hmissing)
      as (key & Hkey & Hnone & Hrun).
    rewrite Hrun. split_and!; [done|done|].
    intros ? [= <-]. by exists key.
Qed.

Lemma parse_args_inl (argv : list (flag * str)) (e : exn) :
  parse_args argv = inl e → ∃ message, e = UsageError message.
Proof.
  unfold parse_args.
  destruct (stored FromEmail argv), (stored FromName argv),
    (stored ToEmail argv), (stored Subject argv); try done;
    intros [= <-]; by eexists.
Qed.

(** C6. With at least one [--cc-name], and a number of [--cc-name] options
    other than the number of [--cc-email] options, the tool stops with a
    usage error while it parses its arguments: nothing was sent. *)
Theorem cc_count_mismatch_is_usage_error
    (w : World) (argv : list (flag * str)) (stdin : str) :
  (0 < length (appended CcName argv))%nat →
  length (appended CcName argv) ≠ length (appended CcEmail argv) →
  ∃ message,
    run (main w argv stdin) = (inl (UsageError message), [])
    ∧ exit_status (run (main w argv stdin)).1 = 2%Z.
Proof.
  intros Hpos Hne. rewrite main_unfold. unfold parse_arguments. unfold_M.
  destruct (parse_args argv) as [e|args] eqn:Hparse.
  - apply parse_args_inl in Hparse as [message ->]. by exists message.
  - apply parse_args_fields in Hparse as (_ & _ & _ & -> & ->).
    rewrite !bool_decide_eq_true_2 by done. by eexists.
Qed.

Lemma attach_files_one (w : World) (msg : MIMEMultipart) (path : str) (data : bytes) :
  files w !! path = Some data →
  attach_files w msg [path]
  = inr (attach msg
           (Base (add_header
                    (encode_base64
                       (set_payload (MIMEBase_new (lit "application") (lit "octet-stream"))
                          (BytesPayload data)))
                    (lit "Content-Disposition")
                    (lit "attachment; filename=" ++ path)))).
Proof.
  intros Hfile. unfold attach_files, attachment_part, read_file. by rewrite Hfile.
Qed.

Lemma message_headers_parts (args : Namespace) (msg : MIMEMultipart) :
  message_headers args = inr msg → parts msg = [].
Proof.
  unfold message_headers. unfold_M.
  repeat (case_match; try done). by intros [= <-].
Qed.

(** C9. With one [--attachment] that names a readable file, and headers
    that can be encoded, the message is made of the body and of exactly one
    more part: a binary part whose payload decodes from Base64 to the bytes
    of the file, and whose Content-Disposition carries the path as given. *)
Theorem single_attachment_part
    (w : World) (argv : list (flag * str)) (args : Namespace) (content : str)
    (path : str) (data : bytes) (msg0 : MIMEMultipart) :
  parse_arguments argv = inr args →
  appended Attachment argv = [path] →
  files w !! path = Some data →
  message_headers args = inr msg0 →
  ∃ part encoded,
    compose_message w args content
    = inr {| headers := headers msg0;
             parts := [MIMEText content (content_type args) (lit "utf-8"); Base part] |}
    ∧ lookup_header (lit "Content-Type") (base_headers part)
      = Some (lit "application/octet-stream")
    ∧ lookup_header (lit "Content-Transfer-Encoding") (base_headers part)
      = Some (lit "base64")
    ∧ base_payload part = TextPayload encoded
    ∧ Base64.b64decode encoded = data
    ∧ lookup_header (lit "Content-Disposition") (base_headers part)
      = Some (lit "attachment; filename=" ++ path).
Proof.
  intros Hparse Hone Hfile Hheaders.
  apply parse_arguments_inr, parse_args_fields in Hparse as (_ & _ & Hatt & _).
  rewrite Hone in Hatt.
  eexists _, (Base64.encodebytes data). split_and!.
  - unfold compose_message. unfold_M. rewrite Hheaders, Hatt.
    rewrite (attach_files_one _ _ _ _ Hfile). unfold attach. simpl.
    by rewrite (message_headers_parts _ _ Hheaders).
  - by vm_compute.
  - by vm_compute.
  - done.
  - apply b64decode_encodebytes.
  - vm_compute. reflexivity.
Qed.

Lemma cc_header_no_names (args : Namespace) : cc_name args = [] → cc_header args = inr [].
Proof.
  intros Hnames. unfold cc_header. rewrite Hnames.
  by destruct (cc_email args).
Qed.

Lemma message_headers_cc (args : Namespace) (msg : MIMEMultipart) (cc : str) :
  message_headers args = inr msg → cc_header args = inr cc →
  lookup_header (lit "Cc") (headers msg) = Some cc.
Proof.
  unfold message_headers. unfold_M. intros Hmsg Hcc. rewrite Hcc in Hmsg.
  repeat (case_match; try done). injection Hmsg as <-.
  vm_compute. reflexivity.
Qed.

Lemma compose_message_headers (w : World) (args : Namespace) (content : str)
    (msg : MIMEMultipart) :
  compose_message w args content = inr msg →
  ∃ msg0, message_headers args = inr msg0 ∧ headers msg = headers msg0.
Proof.
  unfold compose_message. unfold_M.
  destruct (message_headers args) as [e|msg0]; [done|].
  intros Hfiles. exists msg0. split; [done|].
  change (headers msg0)
    with (headers (attach msg0 (MIMEText content (content_type args) (lit "utf-8")))).
  revert Hfiles. generalize (attach msg0 (MIMEText content (content_type args) (lit "utf-8"))).
  induction (attachment args) as [|name names IH]; intros m; simpl.
  - by intros [= <-].
  - unfold_M. destruct (attachment_part w name) as [e|part]; [done|].
    intros Hrest. by rewrite (IH _ Hrest).
Qed.

(** C10. With [--cc-email] options and no [--cc-name], the validation lets
    the arguments through, the Cc header is empty, and the run is the run
    of the same invocation without its CC addresses: they reach neither
    the message nor the SMTP session. *)
Theorem unnamed_cc_addresses_are_dropped
    (argv : list (flag * str)) (args : Namespace) :
  parse_args argv = inr args →
  appended CcName argv = [] →
  appended CcEmail argv ≠ [] →
  parse_arguments argv = inr args
  ∧ cc_email args = appended CcEmail argv
  ∧ cc_header args = inr []
  ∧ (∀ w content msg, compose_message w args content = inr msg →
       lookup_header (lit "Cc") (headers msg) = Some [])
  ∧ (∀ w content,
       compose_message w args content = compose_message w (without_cc_email args) content)
  ∧ (∀ w content,
       run (send_mail w args content) = run (send_mail w (without_cc_email args) content)).
Proof.
  intros Hparse Hnames Hemails.
  destruct (parse_args_fields _ _ Hparse) as (_ & _ & _ & Hcc_email & Hcc_name).
  rewrite Hnames in Hcc_name.
  assert (cc_header args = inr []) as Hcc by by apply cc_header_no_names.
  assert (∀ w content,
            compose_message w args content
            = compose_message w (without_cc_email args) content) as Hsame.
  { intros w content. unfold compose_message, message_headers.
    by rewrite Hcc, (cc_header_no_names (without_cc_email args)). }
  split_and!; [|done|done| | done |].
  - unfold parse_arguments. unfold_M. rewrite Hparse, Hcc_name. done.
  - intros w content msg (msg0 & Hmsg0 & ->)%compose_message_headers.
    by apply (message_headers_cc args).
  - intros w content. unfold send_mail. by rewrite Hsame.
Qed.

(** C1, on the code. For one CC address with its name the two lengths
    agree, yet the Cc header puts the address where the name belongs and
    the name where the address belongs; the specification asks for the
    pair the other way round. *)
Theorem cc_pair_is_swapped :
  parse_arguments Sample.argv_cc = inr Sample.args_cc
  ∧ length (cc_email Sample.args_cc) = length (cc_name Sample.args_cc)
  ∧ cc_header Sample.args_cc
    = inr (dquote ++ lit "carol@example.org" ++ dquote ++ lit " <Carol>")
  ∧ match compose_message Sample.friendly Sample.args_cc Sample.body with
    | inr msg => lookup_header (lit "Cc") (headers msg)
    | inl _ => None
    end = Some (dquote ++ lit "carol@example.org" ++ dquote ++ lit " <Carol>")
  ∧ cc_header_spec Sample.args_cc = inr (lit "Carol <carol@example.org>").
Proof. split_and!; vm_compute; reflexivity. Qed.

(** C3, the counterexample. The server refuses the login: the error
    reaches the top level, and the connection that was opened is not
    closed. *)
Lemma login_failure_skips_quit :
  run (main Sample.rejecting_login Sample.argv Sample.body)
  = (inl (SMTPException (lit "535 authentication failed")), Sample.session [])
  ∧ fails_at_login Sample.rejecting_login (Sample.session [])
  ∧ ConnQuit ∉ Sample.session [].
Proof.
  split_and!.
  - vm_compute. reflexivity.
  - exists (lit "alice"), (lit "secret"), (SMTPException (lit "535 authentication failed")).
    split; [repeat constructor|done].
  - intros Hin. unfold Sample.session in Hin. simpl in Hin.
    decompose_list_elem_of; discriminate.
Qed.

(** *** Further properties of the Mail Sender Tool: the arguments *)

Lemma stored_None (f : flag) (argv : list (flag * str)) :
  stored f argv = None ↔ appended f argv = [].
Proof. unfold stored. apply last_None. Qed.

(** X9. When one of the four required options is not given, the tool stops
    with a usage error before any SMTP action. *)
Theorem required_option_missing_is_usage_error
    (w : World) (argv : list (flag * str)) (stdin : str) (f : flag) :
  f ∈ required →
  appended f argv = [] →
  ∃ message,
    run (main w argv stdin) = (inl (UsageError message), [])
    ∧ exit_status (run (main w argv stdin)).1 = 2%Z.
Proof.
  intros Hf Hnone%stored_None. rewrite main_unfold.
  unfold parse_arguments, parse_args, required in *. unfold_M.
  decompose_list_elem_of; simplify_eq; rewrite Hnone;
    repeat (case_match; simplify_eq); by eexists.
Qed.

(** X10. The arguments are accepted exactly when each of the four required
    options is given and there is either no [--cc-name] or one for each
    [--cc-email]. *)
Theorem parse_arguments_accepts_iff (argv : list (flag * str)) :
  (∃ args, parse_arguments argv = inr args)
  ↔ Forall (λ f, appended f argv ≠ []) required
    ∧ (appended CcName argv = []
       ∨ length (appended CcEmail argv) = length (appended CcName argv)).
Proof.
  unfold parse_arguments, parse_args, required. unfold_M.
  rewrite !Forall_cons, Forall_nil, <-!stored_None, (stored_None CcName).
  destruct (stored FromEmail argv), (stored FromName argv),
    (stored ToEmail argv), (stored Subject argv); simpl;
    try (split; [by intros [? [=]]|by intros [(? & ? & ? & ? & _) _]]).
  assert (∀ x : str, Some x ≠ None) as Hsome by done.
  destruct (appended CcName argv) as [|name names] eqn:Hnames; simpl.
  { split; [by auto 10|]. intros _. by eexists. }
  destruct (decide (length (appended CcEmail argv) = S (length names))) as [Heq|Hne].
  - rewrite bool_decide_eq_false_2 by (intros Hne; by apply Hne).
    split; [by auto 10|]. intros _. by eexists.
  - rewrite bool_decide_eq_true_2 by done.
    split; [by intros [? [=]]|]. by intros [_ [?|?]].
Qed.

(** *** The message *)

Lemma encode_utf8_inl (s : str) (e : exn) : encode_utf8 s = inl e → e = UnicodeEncodeError.
Proof.
  unfold encode_utf8. unfold_M.
  assert (∀ e, comprehension utf8_char s = inl e → e = UnicodeEncodeError) as Hall.
  { induction s as [|c s IH]; intros e'; simpl; [done|]. unfold_M.
    destruct (utf8_char c) as [e0|y] eqn:Hc.
    - intros [= <-]. unfold utf8_char in Hc. by repeat case_match; simplify_eq.
    - destruct (comprehension utf8_char s) as [e0|ys]; [|done].
      intros [= <-]. by apply IH. }
  destruct (comprehension utf8_char s) as [e'|chunks]; [|done].
  intros [= <-]. by apply Hall.
Qed.

Lemma Header_str_inl (s : option str) (e : exn) :
  Header_str s = inl e → e = UnicodeEncodeError.
Proof.
  destruct s as [s|]; [|done]. unfold Header_str. unfold_M.
  destruct (encode_utf8 s) as [e'|] eqn:He; [|done].
  intros [= <-]. by apply encode_utf8_inl in He.
Qed.

Lemma formataddr_inl (name address : str) (e : exn) :
  formataddr name address = inl e → e = UnicodeEncodeError.
Proof.
  unfold formataddr, header_encode. unfold_M.
  repeat case_match; simplify_eq; try done.
  - by intros [= <-].
  - match goal with H : encode_utf8 _ = inl _ |- _ => apply encode_utf8_inl in H end.
    by intros [= <-].
Qed.

Lemma formataddr_not_ascii (name address : str) :
  is_ascii address = false → formataddr name address = inl UnicodeEncodeError.
Proof. intros Haddr. unfold formataddr. by rewrite Haddr. Qed.

(** X11. The composed message has, after the two headers of the multipart
    container, exactly the headers Subject, From, To and Cc, in this order.
    Subject is the [--subject] value as given, Cc is present even when it is
    empty, and To is the bare address when there is no [--to-name]. *)
Theorem message_headers_layout (args : Namespace) (msg : MIMEMultipart) :
  message_headers args = inr msg →
  ∃ from to cc,
    headers msg = [(lit "Content-Type", lit "multipart/mixed");
                   (lit "MIME-Version", lit "1.0");
                   (lit "Subject", subject args);
                   (lit "From", from); (lit "To", to); (lit "Cc", cc)]
    ∧ parts msg = []
    ∧ cc_header args = inr cc
    ∧ (to_name args = None → to = to_email args).
Proof.
  unfold message_headers. unfold_M.
  destruct (Header_str (Some (from_name args))) as [?|name]; [done|].
  destruct (formataddr name (from_email args)) as [?|from]; [done|].
  destruct (Header_str (to_name args)) as [?|name'] eqn:Hname; [done|].
  destruct (formataddr name' (to_email args)) as [?|to] eqn:Hto; [done|].
  destruct (cc_header args) as [?|cc]; [done|].
  intros [= <-]. exists from, to, cc. split_and!; [done..|].
  intros Hnone. rewrite Hnone in Hname. injection Hname as <-.
  unfold formataddr in Hto. by destruct (is_ascii (to_email args)); simplify_eq/=.
Qed.

Lemma cc_header_inl (args : Namespace) (e : exn) :
  cc_header args = inl e → e = UnicodeEncodeError.
Proof.
  unfold cc_header. unfold_M.
  generalize (zip (cc_email args) (cc_name args)). intros pairs.
  match goal with
  | |- context [comprehension ?F pairs] =>
      assert (∀ e', comprehension F pairs = inl e' → e' = UnicodeEncodeError) as Hall
  end.
  { induction pairs as [|[name email] pairs IH]; intros e'; cbn [comprehension]; [done|].
    unfold_M.
    destruct (Header_str (Some name)) as [?|display] eqn:Hd;
      [intros [= <-]; by apply Header_str_inl in Hd|].
    destruct (formataddr display email) as [?|addr] eqn:Ha;
      [intros [= <-]; by apply formataddr_inl in Ha|].
    destruct (comprehension _ pairs) as [?|?] eqn:Hrest; [|done].
    intros [= <-]. by apply IH. }
  destruct (comprehension _ pairs) as [?|?] eqn:Hpairs; [|done].
  intros [= <-]. by apply Hall.
Qed.

Lemma message_headers_inl (args : Namespace) (e : exn) :
  message_headers args = inl e → e = UnicodeEncodeError.
Proof.
  unfold message_headers. unfold_M.
  destruct (Header_str (Some (from_name args))) as [?|name] eqn:H1;
    [intros [= <-]; by apply Header_str_inl in H1|].
  destruct (formataddr name (from_email args)) as [?|from] eqn:H2;
    [intros [= <-]; by apply formataddr_inl in H2|].
  destruct (Header_str (to_name args)) as [?|name'] eqn:H3;
    [intros [= <-]; by apply Header_str_inl in H3|].
  destruct (formataddr name' (to_email args)) as [?|to] eqn:H4;
    [intros [= <-]; by apply formataddr_inl in H4|].
  destruct (cc_header args) as [?|?] eqn:H5; [|done].
  intros [= <-]. by apply cc_header_inl in H5.
Qed.

(** X12. An address with a character outside ASCII, in [--from-email] or in
    [--to-email], ends the run with UnicodeEncodeError while the headers are
    built: no connection is opened. *)
Theorem non_ascii_address_is_fatal
    (w : World) (args : Namespace) (content : str) (server username password : str) :
  environ w !! lit "SMTP_SERVER" = Some server →
  environ w !! lit "SMTP_USERNAME" = Some username →
  environ w !! lit "SMTP_PASSWORD" = Some password →
  is_ascii (from_email args) = false ∨ is_ascii (to_email args) = false →
  run (send_mail w args content) = (inl UnicodeEncodeError, []).
Proof.
  intros Hserver Husername Hpassword Haddr.
  assert (message_headers args = inl UnicodeEncodeError) as Hheaders.
  { destruct (message_headers args) as [e|msg] eqn:Hmsg.
    - by rewrite (message_headers_inl _ _ Hmsg).
    - exfalso. revert Hmsg. unfold message_headers. unfold_M.
      destruct (Header_str (Some (from_name args))) as [?|name]; [done|].
      destruct (formataddr name (from_email args)) as [?|from] eqn:Hfrom; [done|].
      destruct (Header_str (to_name args)) as [?|name']; [done|].
      destruct (formataddr name' (to_email args)) as [?|to] eqn:Hto; [done|].
      destruct Haddr as [Ha|Ha].
      + by rewrite (formataddr_not_ascii _ _ Ha) in Hfrom.
      + by rewrite (formataddr_not_ascii _ _ Ha) in Hto. }
  unfold send_mail, getenv, compose_message. unfold_M.
  rewrite Hserver, Husername, Hpassword. simpl. by rewrite Hheaders.
Qed.

Lemma attach_files_readable (w : World) (names : list str) :
  Forall (λ name, is_Some (files w !! name)) names →
  ∀ msg, ∃ ps,
    attach_files w msg names
    = inr {| headers := headers msg; parts := parts msg ++ (Base <$> ps) |}
    ∧ Forall2 (λ name p,
                 ∃ data encoded,
                   files w !! name = Some data
                   ∧ base_payload p = TextPayload encoded
                   ∧ Base64.b64decode encoded = data
                   ∧ lookup_header (lit "Content-Disposition") (base_headers p)
                     = Some (lit "attachment; filename=" ++ name))
        names ps.
Proof.
  induction 1 as [|name names [data Hdata] _ IH]; intros msg.
  - exists []. simpl. rewrite app_nil_r. split; [by destruct msg|constructor].
  - destruct (IH (attach msg
                    (Base (add_header
                             (encode_base64
                                (set_payload
                                   (MIMEBase_new (lit "application") (lit "octet-stream"))
                                   (BytesPayload data)))
                             (lit "Content-Disposition")
                             (lit "attachment; filename=" ++ name)))))
      as (ps & Hrest & Hps).
    eexists (_ :: ps). split.
    + cbn [attach_files]. unfold attachment_part, read_file. unfold_M.
      rewrite Hdata. rewrite Hrest. unfold attach. simpl.
      by rewrite <-app_assoc.
    + constructor; [|done]. exists data, (Base64.encodebytes data).
      split_and!; [done|done|apply b64decode_encodebytes|].
      vm_compute. reflexivity.
Qed.

(** X13. When every attachment can be read and the headers can be encoded,
    the message holds the body followed by one binary part per
    [--attachment], in command-line order; each part decodes from Base64 to
    the bytes of its file and names it in Content-Disposition. Without
    attachments the body is the only part. *)
Theorem attachments_follow_the_body_in_order
    (w : World) (args : Namespace) (content : str) (msg0 : MIMEMultipart) :
  message_headers args = inr msg0 →
  Forall (λ name, is_Some (files w !! name)) (attachment args) →
  ∃ ps,
    compose_message w args content
    = inr {| headers := headers msg0;
             parts := MIMEText content (content_type args) (lit "utf-8") :: (Base <$> ps) |}
    ∧ Forall2 (λ name p,
                 ∃ data encoded,
                   files w !! name = Some data
                   ∧ base_payload p = TextPayload encoded
                   ∧ Base64.b64decode encoded = data
                   ∧ lookup_header (lit "Content-Disposition") (base_headers p)
                     = Some (lit "attachment; filename=" ++ name))
        (attachment args) ps.
Proof.
  intros Hheaders Hfiles.
  destruct (attach_files_readable w _ Hfiles
              (attach msg0 (MIMEText content (content_type args) (lit "utf-8"))))
    as (ps & Hattach & Hps).
  exists ps. split; [|done].
  unfold compose_message. unfold_M. rewrite Hheaders, Hattach.
  unfold attach. simpl. by rewrite (message_headers_parts _ _ Hheaders).
Qed.



(** *** The SMTP session *)

Section session.
Variables (w : World) (args : Namespace) (content : str).
Variables (server username password : str) (msg : MIMEMultipart).
Hypothesis Hserver : environ w !! lit "SMTP_SERVER" = Some server.
Hypothesis Husername : environ w !! lit "SMTP_USERNAME" = Some username.
Hypothesis Hpassword : environ w !! lit "SMTP_PASSWORD" = Some password.
Hypothesis Hmsg : compose_message w args content = inr msg.

(** Runs [send_mail] along the path the hypotheses describe. *)
Ltac follow_session :=
  unfold send_mail, getenv; unfold_M;
  rewrite Hserver, Husername, Hpassword; simpl; rewrite Hmsg; simpl;
  repeat match goal with
         | H : ?x = _ |- context [?x] => rewrite H; simpl
         end.

(** X15. When the server accepts every step, the tool connects to the host
    of SMTP_SERVER, logs in with SMTP_USERNAME and SMTP_PASSWORD, hands over
    the serialised message once, quits, and exits with status zero. *)
Theorem accepted_mail_session (text : str) :
  smtp_connect w server = None →
  smtp_login w username password = None →
  as_string w msg = inr text →
  smtp_sendmail w (from_email args) [from_email args; to_email args] text = None →
  smtp_quit w = None →
  run (send_mail w args content)
  = (inr (), [Connect server; Login username password;
              Sendmail (from_email args) [from_email args; to_email args] text;
              ConnQuit])
  ∧ exit_status (run (send_mail w args content)).1 = 0%Z.
Proof.
  intros Hconnect Hlogin Htext Hsend Hquit.
  assert (run (send_mail w args content)
          = (inr (), [Connect server; Login username password;
                      Sendmail (from_email args) [from_email args; to_email args] text;
                      ConnQuit])) as Hrun by (follow_session; done).
  by rewrite Hrun.
Qed.

(** X16. When sendmail raises, the connection is closed and the run ends:
    for an Exception with the diagnostic that starts with [mail to f],
    names the recipient and ends with the text of the error, for any other
    exception with that exception itself. *)
Theorem rejected_mail_diagnostic (text : str) (exc : exn) :
  smtp_connect w server = None →
  smtp_login w username password = None →
  as_string w msg = inr text →
  smtp_sendmail w (from_email args) [from_email args; to_email args] text = Some exc →
  smtp_quit w = None →
  run (send_mail w args content)
  = (inl (if is_Exception exc
          then SystemExit (lit "mail to f" ++ to_email args ++ lit " failed; "
                           ++ str_exc w exc)
          else exc),
     [Connect server; Login username password;
      Sendmail (from_email args) [from_email args; to_email args] text;
      ConnQuit]).
Proof.
  intros Hconnect Hlogin Htext Hsend Hquit. follow_session.
  by destruct (is_Exception exc); simpl; rewrite ?Hquit.
Qed.

(** X17. When the message cannot be serialised, nothing is handed to the
    server: the failure is reported like a failed transmission, and the
    connection is closed. *)
Theorem serialisation_failure_sends_nothing (exc : exn) :
  smtp_connect w server = None →
  smtp_login w username password = None →
  as_string w msg = inl exc →
  smtp_quit w = None →
  run (send_mail w args content)
  = (inl (if is_Exception exc
          then SystemExit (lit "mail to f" ++ to_email args ++ lit " failed; "
                           ++ str_exc w exc)
          else exc),
     [Connect server; Login username password; ConnQuit]).
Proof.
  intros Hconnect Hlogin Htext Hquit. follow_session.
  by destruct (is_Exception exc); simpl; rewrite ?Hquit.
Qed.

(** X18. When the connection cannot be opened, its error ends the run:
    there is no login and nothing to close. *)
Theorem connection_failure_propagates (e : exn) :
  smtp_connect w server = Some e →
  run (send_mail w args content) = (inl e, [Connect server]).
Proof. intros Hconnect. by follow_session. Qed.

(** X19. When the login is refused, its error ends the run as it is:
    nothing is sent, and the connection is left as it was. *)
Theorem login_failure_propagates (e : exn) :
  smtp_connect w server = None →
  smtp_login w username password = Some e →
  run (send_mail w args content)
  = (inl e, [Connect server; Login username password]).
Proof. intros Hconnect Hlogin. by follow_session. Qed.

(** X20. When quit raises, its error is the outcome of the run, also when
    the server had accepted the message. *)
Theorem quit_failure_is_fatal (e : exn) :
  smtp_connect w server = None →
  smtp_login w username password = None →
  smtp_quit w = Some e →
  (run (send_mail w args content)).1 = inl e
  ∧ last (run (send_mail w args content)).2 = Some ConnQuit.
Proof.
  intros Hconnect Hlogin Hquit.
  unfold send_mail, getenv. unfold_M.
  rewrite Hserver, Husername, Hpassword. simpl. rewrite Hmsg. simpl.
  rewrite Hconnect. simpl. rewrite Hlogin. simpl.
  repeat (case_match; simpl in *; simplify_eq); done.
Qed.

End session.

(** X21. Whatever the server does, a message is handed over only after the
    connection and the login succeeded with the values of the environment,
    and what is handed over is the serialisation of the composed message. *)
Theorem sendmail_only_after_login
    (w : World) (args : Namespace) (content : str) (f : str) (d : list str) (m : str) :
  Sendmail f d m ∈ (run (send_mail w args content)).2 →
  ∃ server username password msg,
    environ w !! lit "SMTP_SERVER" = Some server
    ∧ environ w !! lit "SMTP_USERNAME" = Some username
    ∧ environ w !! lit "SMTP_PASSWORD" = Some password
    ∧ smtp_connect w server = None
    ∧ smtp_login w username password = None
    ∧ compose_message w args content = inr msg
    ∧ as_string w msg = inr m
    ∧ (run (send_mail w args content)).2
      = [Connect server; Login username password; Sendmail f d m; ConnQuit].
Proof.
  send_mail_paths; intros Hin; simpl in Hin;
    decompose_list_elem_of; simplify_eq; eauto 15.
Qed.

(** X22. The tool exits with status zero only if the server accepted the
    message and the connection was closed without error. *)
Theorem success_means_accepted
    (w : World) (argv : list (flag * str)) (stdin : str) :
  exit_status (run (main w argv stdin)).1 = 0%Z →
  ∃ f d m,
    Sendmail f d m ∈ (run (main w argv stdin)).2
    ∧ smtp_sendmail w f d m = None
    ∧ smtp_quit w = None.
Proof.
  rewrite main_unfold. destruct (parse_arguments argv) as [e|args]; [by destruct e|].
  send_mail_paths; intros Hstatus; simpl in Hstatus;
    try (by repeat case_match).
  eexists _, _, _. split_and!; [|eassumption|done].
  simpl. do 2 constructor. apply list_elem_of_here.
Qed.
End SendMail_facts.

(** ** The theorems at sample inputs *)

Section Witnesses.
Import Email.

(** C4 at two invocations that ask for 42 and for 7 tokens. *)
Lemma max_tokens_parsed_but_not_sent_witness :
  QueryAI.parse_args Sample.api Sample.query_argv = inr (Sample.query_args 42)
  ∧ QueryAI.parse_args Sample.api Sample.query_argv' = inr (Sample.query_args 7)
  ∧ QueryAI.without_max_tokens Sample.query_argv
    = QueryAI.without_max_tokens Sample.query_argv'
  ∧ run (QueryAI.main Sample.api Sample.query_argv Sample.query_stdin)
    = run (QueryAI.main Sample.api Sample.query_argv' Sample.query_stdin).
Proof.
  assert (QueryAI.parse_args Sample.api Sample.query_argv = inr (Sample.query_args 42))
    as H1 by (vm_compute; reflexivity).
  assert (QueryAI.parse_args Sample.api Sample.query_argv' = inr (Sample.query_args 7))
    as H2 by (vm_compute; reflexivity).
  assert (QueryAI.without_max_tokens Sample.query_argv
          = QueryAI.without_max_tokens Sample.query_argv')
    as H3 by (vm_compute; reflexivity).
  split_and!; [done..|].
  exact (proj1 (proj2 (max_tokens_parsed_but_not_sent
                         Sample.api _ _ Sample.query_stdin _ _ H1 H2 H3))).
Defined.

(** C8 for a prompt with a trailing line feed and an answer with white space
    around it. *)
Lemma prompt_sent_as_single_user_message_witness :
  run (QueryAI.main Sample.api Sample.query_argv Sample.query_stdin)
  = (inr (),
     [QueryAI.Create (QueryAI.request (lit "Say hello.") (lit "gpt-4o-mini"));
      QueryAI.PrintLine (lit "Hello there!")]).
Proof.
  refine (proj2 (prompt_sent_as_single_user_message
                   Sample.api Sample.query_argv Sample.query_stdin (Sample.query_args 42)
                   {| QueryAI.choices :=
                        [{| QueryAI.message :=
                              {| QueryAI.content := Some (lit "  Hello there! " ++ [10]) |} |}] |}
                   {| QueryAI.message :=
                        {| QueryAI.content := Some (lit "  Hello there! " ++ [10]) |} |}
                   [] (lit "  Hello there! " ++ [10]) _ _ _ _ _));
    vm_compute; reflexivity.
Defined.

(** C2 for an invocation with a CC address and a server that accepts the
    mail. *)
Lemma envelope_is_from_and_to_witness :
  Sample.sent ∈ (run (SendMail.main Sample.friendly Sample.argv_cc Sample.body)).2
  ∧ ∃ from to,
      SendMail.stored SendMail.FromEmail Sample.argv_cc = Some from
      ∧ SendMail.stored SendMail.ToEmail Sample.argv_cc = Some to
      ∧ lit "alice@example.org" = from
      ∧ [lit "alice@example.org"; lit "bob@example.org"] = [from; to].
Proof.
  assert (Sample.sent ∈ (run (SendMail.main Sample.friendly Sample.argv_cc Sample.body)).2)
    as Hin by (vm_compute; repeat constructor).
  split; [exact Hin|].
  exact (envelope_is_from_and_to _ _ _ _ _ _ Hin).
Defined.

(** C7 for a server that accepts the mail and for one that rejects it. *)
Lemma quit_exactly_once_witness :
  SendMail.quits (run (SendMail.main Sample.friendly Sample.argv Sample.body)).2 = 1%nat
  ∧ SendMail.quits (run (SendMail.main Sample.rejecting_mail Sample.argv Sample.body)).2
    = 1%nat.
Proof.
  split.
  - refine (quit_exactly_once Sample.friendly Sample.argv Sample.body _ _ _ _).
    vm_compute. do 2 constructor. apply list_elem_of_here.
  - refine (quit_exactly_once Sample.rejecting_mail Sample.argv Sample.body _ _ _ _).
    vm_compute. do 2 constructor. apply list_elem_of_here.
Defined.

(** C3, as the code has it, for a server that rejects the mail. *)
Lemma session_failure_is_fatal_witness :
  (∃ e, inl (SystemExit (lit "mail to fbob@example.org failed; 550 mailbox unavailable"))
        = inl (B := ()) e)
  ∧ exit_status (A := ())
      (inl (SystemExit (lit "mail to fbob@example.org failed; 550 mailbox unavailable")))
    ≠ 0%Z
  ∧ (SendMail.fails_at_sendmail Sample.rejecting_mail
       (Sample.session [Sample.sent; SendMail.ConnQuit])
     → last (Sample.session [Sample.sent; SendMail.ConnQuit]) = Some SendMail.ConnQuit
       ∧ SendMail.quits (Sample.session [Sample.sent; SendMail.ConnQuit]) = 1%nat).
Proof.
  refine (session_failure_is_fatal Sample.rejecting_mail Sample.argv Sample.body _ _ _ _).
  - vm_compute. reflexivity.
  - right. exists (lit "alice@example.org"),
      [lit "alice@example.org"; lit "bob@example.org"], (lit "(message)"),
      (SMTPException (lit "550 mailbox unavailable")).
    split; [|reflexivity]. unfold Sample.session, Sample.sent. simpl. do 2 constructor.
    apply list_elem_of_here.
Defined.

(** C5 for an environment without the password. *)
Lemma missing_variable_is_fatal_witness :
  (run (SendMail.main Sample.without_password Sample.argv Sample.body)).2 = []
  ∧ exit_status (run (SendMail.main Sample.without_password Sample.argv Sample.body)).1
    ≠ 0%Z
  ∧ (∀ args, SendMail.parse_arguments Sample.argv = inr args →
       ∃ key, key ∈ SendMail.required_variables
         ∧ SendMail.environ Sample.without_password !! key = None
         ∧ (run (SendMail.main Sample.without_password Sample.argv Sample.body)).1
           = inl (SystemExit (lit "Unable to find " ++ key
                              ++ lit " environment variable" ++ [10]))).
Proof.
  apply (missing_variable_is_fatal Sample.without_password Sample.argv Sample.body).
  exists (lit "SMTP_PASSWORD"). split.
  - unfold SendMail.required_variables. do 2 constructor. apply list_elem_of_here.
  - vm_compute. reflexivity.
Defined.

(** C6 for two CC addresses and one CC name. *)
Lemma cc_count_mismatch_is_usage_error_witness :
  ∃ message,
    run (SendMail.main Sample.friendly Sample.argv_cc_mismatch Sample.body)
    = (inl (UsageError message), [])
    ∧ exit_status
        (run (SendMail.main Sample.friendly Sample.argv_cc_mismatch Sample.body)).1
      = 2%Z.
Proof.
  apply (cc_count_mismatch_is_usage_error
           Sample.friendly Sample.argv_cc_mismatch Sample.body).
  - vm_compute. lia.
  - vm_compute. lia.
Defined.

(** C9 for a file of four bytes. *)
Lemma single_attachment_part_witness :
  ∃ part encoded,
    SendMail.compose_message Sample.friendly Sample.args_attachment Sample.body
    = inr {| headers := headers Sample.plain_headers;
             parts := [MIMEText Sample.body (lit "plain") (lit "utf-8"); Base part] |}
    ∧ lookup_header (lit "Content-Type") (base_headers part)
      = Some (lit "application/octet-stream")
    ∧ lookup_header (lit "Content-Transfer-Encoding") (base_headers part)
      = Some (lit "base64")
    ∧ base_payload part = TextPayload encoded
    ∧ Base64.b64decode encoded = Sample.file_bin
    ∧ lookup_header (lit "Content-Disposition") (base_headers part)
      = Some (lit "attachment; filename=" ++ lit "file.bin").
Proof.
  refine (single_attachment_part Sample.friendly Sample.argv_attachment
            Sample.args_attachment Sample.body (lit "file.bin") Sample.file_bin
            Sample.plain_headers _ _ _ _);
    vm_compute; reflexivity.
Defined.

(** C10 for one CC address without a name. *)
Lemma unnamed_cc_addresses_are_dropped_witness :
  SendMail.parse_arguments Sample.argv_cc_unnamed = inr Sample.args_cc_unnamed
  ∧ SendMail.cc_email Sample.args_cc_unnamed = [lit "carol@example.org"]
  ∧ SendMail.cc_header Sample.args_cc_unnamed = inr [].
Proof.
  pose proof (unnamed_cc_addresses_are_dropped
                Sample.argv_cc_unnamed Sample.args_cc_unnamed) as H.
  destruct H as (Hparse & Hemail & Hcc & _).
  - vm_compute. reflexivity.
  - vm_compute. reflexivity.
  - vm_compute. discriminate.
  - split_and!; [exact Hparse|exact Hemail|exact Hcc].
Defined.

(** *** The further properties at sample inputs *)

(** X1 for an API that answers with an error. *)
Lemma api_error_propagates_witness :
  run (QueryAI.main (Sample.api_with None (inl Sample.rate_limited))
         Sample.query_argv Sample.query_stdin)
  = (inl Sample.rate_limited,
     [QueryAI.Create (QueryAI.request (strip Sample.query_stdin)
                        (QueryAI.model_argument Sample.query_argv))])
  ∧ exit_status (run (QueryAI.main (Sample.api_with None (inl Sample.rate_limited))
                        Sample.query_argv Sample.query_stdin)).1 ≠ 0%Z.
Proof.
  refine (api_error_propagates (Sample.api_with None (inl Sample.rate_limited))
            Sample.query_argv Sample.query_stdin (Sample.query_args 42)
            Sample.rate_limited _ _ _);
    vm_compute; reflexivity.
Defined.

(** X2 for a response without choices. *)
Lemma empty_choices_is_IndexError_witness :
  run (QueryAI.main (Sample.api_with None (inr (Sample.completion [])))
         Sample.query_argv Sample.query_stdin)
  = (inl IndexError,
     [QueryAI.Create (QueryAI.request (strip Sample.query_stdin)
                        (QueryAI.model_argument Sample.query_argv))]).
Proof.
  refine (empty_choices_is_IndexError
            (Sample.api_with None (inr (Sample.completion [])))
            Sample.query_argv Sample.query_stdin (Sample.query_args 42)
            (Sample.completion []) _ _ _ _);
    vm_compute; reflexivity.
Defined.

(** X3 for a response whose first choice has no content and whose second
    has one. *)
Lemma missing_content_is_AttributeError_witness :
  run (QueryAI.main
         (Sample.api_with None (inr (Sample.completion [None; Some (lit "late")])))
         Sample.query_argv Sample.query_stdin)
  = (inl AttributeError,
     [QueryAI.Create (QueryAI.request (strip Sample.query_stdin)
                        (QueryAI.model_argument Sample.query_argv))]).
Proof.
  refine (missing_content_is_AttributeError
            (Sample.api_with None (inr (Sample.completion [None; Some (lit "late")])))
            Sample.query_argv Sample.query_stdin (Sample.query_args 42)
            (Sample.completion [None; Some (lit "late")])
            {| QueryAI.message := {| QueryAI.content := None |} |}
            [{| QueryAI.message := {| QueryAI.content := Some (lit "late") |} |}]
            _ _ _ _ _);
    vm_compute; reflexivity.
Defined.

(** X4 for a client that cannot be constructed. *)
Lemma client_failure_makes_no_request_witness :
  run (QueryAI.main
         (Sample.api_with (Some (OpenAIError (lit "no API key"))) (inr (Sample.completion [])))
         Sample.query_argv Sample.query_stdin)
  = (inl (OpenAIError (lit "no API key")), []).
Proof.
  refine (client_failure_makes_no_request
            (Sample.api_with (Some (OpenAIError (lit "no API key")))
               (inr (Sample.completion [])))
            Sample.query_argv Sample.query_stdin (Sample.query_args 42) _ _ _);
    vm_compute; reflexivity.
Defined.

(** X5 for a standard input of two spaces and a line feed. *)
Lemma blank_prompt_is_still_sent_witness :
  ∃ rest,
    (run (QueryAI.main Sample.api Sample.query_argv [32; 32; 10])).2
    = QueryAI.Create (QueryAI.request [] (QueryAI.model_argument Sample.query_argv)) :: rest.
Proof.
  refine (blank_prompt_is_still_sent Sample.api Sample.query_argv [32; 32; 10]
            (Sample.query_args 42) _ _ _).
  - vm_compute. reflexivity.
  - reflexivity.
  - repeat constructor.
Defined.

(** X6 for [--max_tokens many]. *)
Lemma invalid_max_tokens_is_usage_error_witness :
  ∃ message,
    run (QueryAI.main Sample.api [(QueryAI.MaxTokens, lit "many")] Sample.query_stdin)
    = (inl (UsageError message), [])
    ∧ exit_status
        (run (QueryAI.main Sample.api [(QueryAI.MaxTokens, lit "many")]
                Sample.query_stdin)).1 = 2%Z.
Proof.
  refine (invalid_max_tokens_is_usage_error Sample.api
            [(QueryAI.MaxTokens, lit "many")] Sample.query_stdin (lit "many") _ _).
  - vm_compute. constructor.
  - vm_compute. reflexivity.
Defined.

(** X7 for the sample answer, which has white space on both sides. *)
Lemma printed_text_is_stripped_witness :
  (∀ c, head (lit "Hello there!") = Some c → isspace c = false)
  ∧ (∀ c, last (lit "Hello there!") = Some c → isspace c = false).
Proof.
  refine (printed_text_is_stripped Sample.api Sample.query_argv Sample.query_stdin
            (lit "Hello there!") _).
  vm_compute. constructor. apply list_elem_of_here.
Defined.

(** X9 for an invocation without [--subject]. *)
Lemma required_option_missing_is_usage_error_witness :
  ∃ message,
    run (SendMail.main Sample.friendly (take 3 Sample.argv) Sample.body)
    = (inl (UsageError message), [])
    ∧ exit_status (run (SendMail.main Sample.friendly (take 3 Sample.argv) Sample.body)).1
      = 2%Z.
Proof.
  refine (required_option_missing_is_usage_error Sample.friendly (take 3 Sample.argv)
            Sample.body SendMail.Subject _ _).
  - unfold SendMail.required. do 3 constructor. apply list_elem_of_here.
  - vm_compute. reflexivity.
Defined.

(** X11 for the sample invocation, which has no [--to-name]. *)
Lemma message_headers_layout_witness :
  ∃ from to cc,
    headers Sample.plain_headers
    = [(lit "Content-Type", lit "multipart/mixed"); (lit "MIME-Version", lit "1.0");
       (lit "Subject", SendMail.subject Sample.args_plain);
       (lit "From", from); (lit "To", to); (lit "Cc", cc)]
    ∧ parts Sample.plain_headers = []
    ∧ SendMail.cc_header Sample.args_plain = inr cc
    ∧ (SendMail.to_name Sample.args_plain = None
       → to = SendMail.to_email Sample.args_plain).
Proof.
  refine (message_headers_layout Sample.args_plain Sample.plain_headers _).
  vm_compute. reflexivity.
Defined.

(** X12 for a sender address with an accented letter. *)
Lemma non_ascii_address_is_fatal_witness :
  run (SendMail.send_mail Sample.accepting Sample.args_accented Sample.body)
  = (inl UnicodeEncodeError, []).
Proof.
  refine (non_ascii_address_is_fatal Sample.accepting Sample.args_accented Sample.body
            (lit "smtp.example.org") (lit "alice") (lit "secret") _ _ _ _).
  - vm_compute. reflexivity.
  - vm_compute. reflexivity.
  - vm_compute. reflexivity.
  - left. vm_compute. reflexivity.
Defined.

(** X13 for two attachments, the second an empty file. *)
Lemma attachments_follow_the_body_in_order_witness :
  ∃ ps,
    SendMail.compose_message Sample.accepting
      (Sample.args_with [lit "file.bin"; lit "notes.txt"] [] []) Sample.body
    = inr {| headers := headers Sample.plain_headers;
             parts := MIMEText Sample.body (lit "plain") (lit "utf-8") :: (Base <$> ps) |}
    ∧ Forall2 (λ name p,
                 ∃ data encoded,
                   SendMail.files Sample.accepting !! name = Some data
                   ∧ base_payload p = TextPayload encoded
                   ∧ Base64.b64decode encoded = data
                   ∧ lookup_header (lit "Content-Disposition") (base_headers p)
                     = Some (lit "attachment; filename=" ++ name))
        [lit "file.bin"; lit "notes.txt"] ps.
Proof.
  refine (attachments_follow_the_body_in_order Sample.accepting
            (Sample.args_with [lit "file.bin"; lit "notes.txt"] [] []) Sample.body
            Sample.plain_headers _ _).
  - vm_compute. reflexivity.
  - repeat constructor; vm_compute; eexists; reflexivity.
Defined.


(** X15 for a server that accepts every step. *)
Lemma accepted_mail_session_witness :
  run (SendMail.send_mail Sample.accepting Sample.args_plain Sample.body)
  = (inr (), Sample.session [Sample.sent; SendMail.ConnQuit])
  ∧ exit_status (run (SendMail.send_mail Sample.accepting Sample.args_plain Sample.body)).1
    = 0%Z.
Proof.
  refine (accepted_mail_session Sample.accepting Sample.args_plain Sample.body
            (lit "smtp.example.org") (lit "alice") (lit "secret") Sample.plain_message
            _ _ _ _ (lit "(message)") _ _ _ _ _);
    vm_compute; reflexivity.
Defined.

(** X16 for a server that rejects the message. *)
Lemma rejected_mail_diagnostic_witness :
  run (SendMail.send_mail
         (Sample.server_with None None (Some Sample.mailbox_unavailable) None
            (inr (lit "(message)")))
         Sample.args_plain Sample.body)
  = (inl (SystemExit (lit "mail to fbob@example.org failed; 550 mailbox unavailable")),
     Sample.session [Sample.sent; SendMail.ConnQuit]).
Proof.
  refine (rejected_mail_diagnostic
            (Sample.server_with None None (Some Sample.mailbox_unavailable) None
               (inr (lit "(message)")))
            Sample.args_plain Sample.body
            (lit "smtp.example.org") (lit "alice") (lit "secret") Sample.plain_message
            _ _ _ _ (lit "(message)") Sample.mailbox_unavailable _ _ _ _ _);
    vm_compute; reflexivity.
Defined.

(** X17 for a message that cannot be serialised. *)
Lemma serialisation_failure_sends_nothing_witness :
  run (SendMail.send_mail
         (Sample.server_with None None None None (inl UnicodeEncodeError))
         Sample.args_plain Sample.body)
  = (inl (SystemExit (lit "mail to fbob@example.org failed; error")),
     Sample.session [SendMail.ConnQuit]).
Proof.
  refine (serialisation_failure_sends_nothing
            (Sample.server_with None None None None (inl UnicodeEncodeError))
            Sample.args_plain Sample.body
            (lit "smtp.example.org") (lit "alice") (lit "secret") Sample.plain_message
            _ _ _ _ UnicodeEncodeError _ _ _ _);
    vm_compute; reflexivity.
Defined.

(** X18 for a host that refuses the connection. *)
Lemma connection_failure_propagates_witness :
  run (SendMail.send_mail
         (Sample.server_with (Some (OSError (lit "connection refused"))) None None None
            (inr (lit "(message)")))
         Sample.args_plain Sample.body)
  = (inl (OSError (lit "connection refused")),
     [SendMail.Connect (lit "smtp.example.org")]).
Proof.
  refine (connection_failure_propagates
            (Sample.server_with (Some (OSError (lit "connection refused"))) None None None
               (inr (lit "(message)")))
            Sample.args_plain Sample.body
            (lit "smtp.example.org") (lit "alice") (lit "secret") Sample.plain_message
            _ _ _ _ (OSError (lit "connection refused")) _);
    vm_compute; reflexivity.
Defined.

(** X19 for a server that refuses the login. *)
Lemma login_failure_propagates_witness :
  run (SendMail.send_mail Sample.rejecting_login Sample.args_plain Sample.body)
  = (inl (SMTPException (lit "535 authentication failed")), Sample.session []).
Proof.
  refine (login_failure_propagates Sample.rejecting_login Sample.args_plain Sample.body
            (lit "smtp.example.org") (lit "alice") (lit "secret") Sample.plain_message
            _ _ _ _ (SMTPException (lit "535 authentication failed")) _ _);
    vm_compute; reflexivity.
Defined.

(** X20 for a server that drops the connection at quit, after it accepted
    the message. *)
Lemma quit_failure_is_fatal_witness :
  (run (SendMail.send_mail
          (Sample.server_with None None None (Some (SMTPException (lit "disconnected")))
             (inr (lit "(message)")))
          Sample.args_plain Sample.body)).1
  = inl (SMTPException (lit "disconnected"))
  ∧ last (run (SendMail.send_mail
                 (Sample.server_with None None None
                    (Some (SMTPException (lit "disconnected")))
                    (inr (lit "(message)")))
                 Sample.args_plain Sample.body)).2
    = Some SendMail.ConnQuit.
Proof.
  refine (quit_failure_is_fatal
            (Sample.server_with None None None (Some (SMTPException (lit "disconnected")))
               (inr (lit "(message)")))
            Sample.args_plain Sample.body
            (lit "smtp.example.org") (lit "alice") (lit "secret") Sample.plain_message
            _ _ _ _ (SMTPException (lit "disconnected")) _ _ _);
    vm_compute; reflexivity.
Defined.

(** X21 for the sample run. *)
Lemma sendmail_only_after_login_witness :
  ∃ server username password msg,
    SendMail.environ Sample.accepting !! lit "SMTP_SERVER" = Some server
    ∧ SendMail.environ Sample.accepting !! lit "SMTP_USERNAME" = Some username
    ∧ SendMail.environ Sample.accepting !! lit "SMTP_PASSWORD" = Some password
    ∧ SendMail.smtp_connect Sample.accepting server = None
    ∧ SendMail.smtp_login Sample.accepting username password = None
    ∧ SendMail.compose_message Sample.accepting Sample.args_plain Sample.body = inr msg
    ∧ SendMail.as_string Sample.accepting msg = inr (lit "(message)")
    ∧ (run (SendMail.send_mail Sample.accepting Sample.args_plain Sample.body)).2
      = [SendMail.Connect server; SendMail.Login username password;
         Sample.sent; SendMail.ConnQuit].
Proof.
  refine (sendmail_only_after_login Sample.accepting Sample.args_plain Sample.body
            (lit "alice@example.org") [lit "alice@example.org"; lit "bob@example.org"]
            (lit "(message)") _).
  vm_compute. do 2 constructor. apply list_elem_of_here.
Defined.

(** X22 for the sample run. *)
Lemma success_means_accepted_witness :
  ∃ f d m,
    SendMail.Sendmail f d m
      ∈ (run (SendMail.main Sample.friendly Sample.argv Sample.body)).2
    ∧ SendMail.smtp_sendmail Sample.friendly f d m = None
    ∧ SendMail.smtp_quit Sample.friendly = None.
Proof.
  refine (success_means_accepted Sample.friendly Sample.argv Sample.body _).
  vm_compute. reflexivity.
Defined.
End Witnesses.
